(** * Cybertronian time converter: the conversion engine and its properties

    The program is one JavaScript file: a parser of Cybertronian dates, the
    conversion of a date to Earth seconds and back, a formatter, a parser of
    durations such as "2 years, 3 weeks", and the forms that compare dates
    and add or subtract Earth time.

    Its numbers are IEEE-754 binary64 values, modelled by Rocq's primitive
    [float]; its strings are sequences of code units, modelled by [string]
    (code units 0..255, the first 256 Unicode code points).  The built-in
    functions the program calls ([trim], [toLowerCase], [split], [Number],
    [parseInt], [isNaN], [Math.floor], [Math.abs], regular expressions, the
    conversion of a number to a string) are modelled in [Module JS] after
    ECMA-262.

    The file has three parts: the built-ins and the program; the notions
    the statements use; the statements, each with the claim it settles. *)

From Stdlib Require Import ZArith QArith Qround Qabs Bool List Ascii String DecimalString Floats Lia Lqa.
Import ListNotations.

Set Warnings "-inexact-float".
Close Scope Q_scope.

Module JS.

(** ** Characters *)

Definition code (c : ascii) : nat := nat_of_ascii c.

Definition between (lo hi : nat) (c : ascii) : bool :=
  (lo <=? code c)%nat && (code c <=? hi)%nat.

(** WhiteSpace and LineTerminator below U+0100: TAB, LF, VT, FF, CR, SP, NBSP.
    [trim], the class [\s] and [Number] all use this set. *)
Definition isWhiteSpace (c : ascii) : bool :=
  between 9 13 c || (code c =? 32)%nat || (code c =? 160)%nat.

(** The class [\d]. *)
Definition isDigit (c : ascii) : bool := between 48 57 c.

Definition lowerChar (c : ascii) : ascii :=
  if between 65 90 c || (between 192 222 c && negb (code c =? 215)%nat)
  then ascii_of_nat (code c + 32)
  else c.

(** ** Strings *)

Fixpoint toLowerCase (s : string) : string :=
  match s with
  | EmptyString => EmptyString
  | String c s' => String (lowerChar c) (toLowerCase s')
  end.

Fixpoint trimStart (s : string) : string :=
  match s with
  | EmptyString => EmptyString
  | String c s' => if isWhiteSpace c then trimStart s' else s
  end.

Fixpoint trimEnd (s : string) : string :=
  match s with
  | EmptyString => EmptyString
  | String c s' =>
      match trimEnd s' with
      | EmptyString => if isWhiteSpace c then EmptyString else String c EmptyString
      | t => String c t
      end
  end.

Definition trim (s : string) : string := trimEnd (trimStart s).

Fixpoint take (n : nat) (s : string) : string :=
  match n, s with
  | S k, String c s' => String c (take k s')
  | _, _ => EmptyString
  end.

Fixpoint drop (n : nat) (s : string) : string :=
  match n, s with
  | S k, String c s' => drop k s'
  | _, _ => s
  end.

(** ** Regular expressions

    The fragment the program's three patterns use.  [matches r s] lists
    every way [r] can match a prefix of [s], as the rest of [s] after the
    match and the captures, in the order a backtracking matcher tries them:
    the head of the list is the match [exec] reports. *)

Inductive regex : Type :=
| Chr (p : ascii -> bool)
| Seq (r1 r2 : regex)
| Alt (r1 r2 : regex)
| Star (p : ascii -> bool)
| Opt (r : regex)
| Group (r : regex).

Definition Plus (p : ascii -> bool) : regex := Seq (Chr p) (Star p).

Fixpoint groups (r : regex) : nat :=
  match r with
  | Chr _ | Star _ => 0
  | Seq r1 r2 | Alt r1 r2 => groups r1 + groups r2
  | Opt r => groups r
  | Group r => S (groups r)
  end.

Definition captures := list (option string).

Definition undefined (n : nat) : captures := repeat None n.

(** Greedy [c*]: the longest run first, then each shorter one. *)
Fixpoint star (p : ascii -> bool) (s : string) : list string :=
  match s with
  | String c s' => if p c then star p s' ++ [s] else [s]
  | EmptyString => [s]
  end.

Fixpoint matches (r : regex) (s : string) : list (captures * string) :=
  match r with
  | Chr p =>
      match s with
      | String c s' => if p c then [([], s')] else []
      | EmptyString => []
      end
  | Seq r1 r2 =>
      flat_map (fun '(c1, s1) =>
                  map (fun '(c2, s2) => (c1 ++ c2, s2)) (matches r2 s1))
               (matches r1 s)
  | Alt r1 r2 =>
      map (fun '(c1, s1) => (c1 ++ undefined (groups r2), s1)) (matches r1 s)
      ++ map (fun '(c2, s2) => (undefined (groups r1) ++ c2, s2)) (matches r2 s)
  | Star p => map (fun s' => ([], s')) (star p s)
  | Opt r => matches r s ++ [(undefined (groups r), s)]
  | Group r =>
      map (fun '(c, s') =>
             (Some (take (String.length s - String.length s') s) :: c, s'))
          (matches r s)
  end.

(** A match anchored at the start of [s]: the captures and the number of
    code units matched. *)
Definition matchAt (r : regex) (s : string) : option (captures * nat) :=
  match matches r s with
  | (c, s') :: _ => Some (c, String.length s - String.length s')
  | [] => None
  end.

(** A literal character; with the [i] flag both cases of an ASCII letter
    match (a character above U+007F never matches an ASCII one). *)
Definition lit (c : ascii) : regex := Chr (Ascii.eqb c).
Definition liti (c : ascii) : regex := Chr (fun d => Ascii.eqb (lowerChar d) c && (code d <? 128)%nat).

Fixpoint word (f : ascii -> regex) (w : string) (last : regex) : regex :=
  match w with
  | EmptyString => last
  | String c w' => Seq (f c) (word f w' last)
  end.

(** [String.prototype.split] with a regular expression without captures:
    [p] is the start of the current piece, [q] the position tried; a match
    at [q] that ends at [e] closes the piece [p..q) and moves both to [e],
    except an empty match at [p], which is skipped.  [skip] counts the code
    units between [q] and [e]; [piece] is the text of [p..q). *)
Fixpoint splitLoop (r : regex) (s : string) (skip : nat) (piece : string) : list string :=
  match s with
  | EmptyString => [piece]
  | String c s' =>
      match skip with
      | S k => splitLoop r s' k piece
      | O =>
          match matchAt r s with
          | Some (_, S k) => piece :: splitLoop r s' k EmptyString
          | Some (_, O) =>
              match piece with
              | EmptyString => splitLoop r s' 0 (String c EmptyString)
              | _ => piece :: splitLoop r s' 0 (String c EmptyString)
              end
          | None => splitLoop r s' 0 (piece ++ String c EmptyString)
          end
      end
  end.

Definition split (r : regex) (s : string) : list string :=
  match s with
  | EmptyString => match matchAt r s with Some _ => [] | None => [s] end
  | _ => splitLoop r s 0 EmptyString
  end.

(** ** Numbers

    A Number is a binary64 value.  Sums, differences, products, quotients,
    comparisons and the absolute value are the primitive operations on
    [float]; the rest is defined here through [Prim2SF] and [SF2Prim]. *)

Abbreviation number := float (only parsing).

Definition isNaN (x : number) : bool := PrimFloat.is_nan x.

Definition isFinite (x : number) : bool :=
  negb (PrimFloat.is_nan x) && negb (PrimFloat.is_infinity x).

(** [Math.floor]: the largest integer not above [x]; values without a
    fractional part (exponent at least 0), zeros, infinities and NaN are
    returned as they are, and a value in (0,1) gives +0. *)
Definition SFfloor (x : spec_float) : spec_float :=
  match x with
  | S754_finite s m e =>
      if (0 <=? e)%Z then x
      else binary_normalize prec emax (cond_Zopp s (Zpos m) / 2 ^ (- e))%Z 0 s
  | _ => x
  end.

Definition floor (x : number) : number := SF2Prim (SFfloor (Prim2SF x)).

(** The Number value for a rational: the binary64 value nearest to it, ties
    to even, infinite beyond the largest finite value.  [SFdiv] rounds the
    exact quotient of the two integers, whatever their size. *)
Definition SFofQ (n : Z) (d : positive) : spec_float :=
  match n with
  | Z0 => S754_zero false
  | Zpos m => SFdiv prec emax (S754_finite false m 0) (S754_finite false d 0)
  | Zneg m => SFdiv prec emax (S754_finite true m 0) (S754_finite false d 0)
  end.

Definition ofQ (q : Q) : number := SF2Prim (SFofQ (Qnum q) (Qden q)).

Definition ofZ (z : Z) : number := ofQ (inject_Z z).

(** The rational a finite Number stands for ([None] for NaN and the
    infinities). *)
Definition toQ (x : number) : option Q :=
  match Prim2SF x with
  | S754_zero _ => Some 0%Q
  | S754_finite s m e =>
      Some (if (0 <=? e)%Z then inject_Z (cond_Zopp s (Zpos m) * 2 ^ e)
            else Qmake (cond_Zopp s (Zpos m)) (Z.to_pos (2 ^ (- e))))
  | _ => None
  end.

(** *** Numeric strings *)

Definition digitOf (c : ascii) : Z := Z.of_nat (code c) - 48.

(** The value of a digit in radix 16 and below, [None] for another character. *)
Definition hexDigitOf (c : ascii) : option Z :=
  if isDigit c then Some (digitOf c)
  else if between 97 102 c then Some (Z.of_nat (code c) - 87)%Z
  else if between 65 70 c then Some (Z.of_nat (code c) - 55)%Z
  else None.

Fixpoint span (p : ascii -> bool) (s : string) : string * string :=
  match s with
  | String c s' =>
      if p c then let '(a, b) := span p s' in (String c a, b) else (EmptyString, s)
  | EmptyString => (EmptyString, EmptyString)
  end.

(** The integer written by a string of digits in the given radix; [None] if
    the string is empty or has a character that is not such a digit. *)
Fixpoint digitsIn (radix : Z) (acc : Z) (s : string) : option Z :=
  match s with
  | EmptyString => Some acc
  | String c s' =>
      match hexDigitOf c with
      | Some d => if (d <? radix)%Z then digitsIn radix (radix * acc + d)%Z s' else None
      | None => None
      end
  end.

Definition integerIn (radix : Z) (s : string) : option Z :=
  match s with
  | EmptyString => None
  | _ => digitsIn radix 0 s
  end.

(** [m * 10 ^ e] as a rational. *)
Definition scale10 (m e : Z) : Q :=
  if (0 <=? e)%Z then inject_Z (m * 10 ^ e) else Qmake m (Z.to_pos (10 ^ (- e))).

(** ExponentPart: [e] or [E], an optional sign, digits; [Some 0] when absent. *)
Definition exponentPart (s : string) : option Z :=
  match s with
  | EmptyString => Some 0%Z
  | String c s' =>
      if Ascii.eqb c "e" || Ascii.eqb c "E" then
        match s' with
        | String "+" d => integerIn 10 d
        | String "-" d => option_map Z.opp (integerIn 10 d)
        | d => integerIn 10 d
        end
      else None
  end.

(** StrUnsignedDecimalLiteral: the rational it denotes. *)
Definition unsignedDecimal (s : string) : option Q :=
  let '(ip, r1) := span isDigit s in
  let '(fp, r2) :=
    match r1 with
    | String "." r => span isDigit r
    | _ => (EmptyString, r1)
    end in
  match ip, fp with
  | EmptyString, EmptyString => None
  | _, _ =>
      match digitsIn 10 0 (ip ++ fp), exponentPart r2 with
      | Some m, Some e => Some (scale10 m (e - Z.of_nat (String.length fp)))
      | _, _ => None
      end
  end.

Definition signed (neg : bool) (q : Q) : number :=
  if Qeq_bool q 0 then (if neg then PrimFloat.neg_zero else PrimFloat.zero)
  else ofQ (if neg then Qopp q else q).

Definition strDecimalLiteral (neg : bool) (s : string) : number :=
  if String.eqb s "Infinity" then
    (if neg then PrimFloat.neg_infinity else PrimFloat.infinity)
  else match unsignedDecimal s with
       | Some q => signed neg q
       | None => PrimFloat.nan
       end.

Definition nonDecimal (radix : Z) (s : string) : number :=
  match integerIn radix s with
  | Some m => ofZ m
  | None => PrimFloat.nan
  end.

(** [Number(s)] for a string (StringToNumber): white space around the
    literal is dropped, the empty string is +0, and a string that is not a
    StrNumericLiteral is NaN.  The value of a literal is rounded once, from
    all of its digits (ECMA-262 lets an implementation drop the digits after
    the twentieth). *)
Definition Number (s : string) : number :=
  match trim s with
  | EmptyString => PrimFloat.zero
  | String "0" (String "x" d) | String "0" (String "X" d) => nonDecimal 16 d
  | String "0" (String "o" d) | String "0" (String "O" d) => nonDecimal 8 d
  | String "0" (String "b" d) | String "0" (String "B" d) => nonDecimal 2 d
  | String "+" d => strDecimalLiteral false d
  | String "-" d => strDecimalLiteral true d
  | d => strDecimalLiteral false d
  end.

(** [parseInt(s)] for a string of decimal digits, which is all the program
    passes to it: the Number for the integer written. *)
Definition parseIntDigits (s : string) : number :=
  match integerIn 10 s with
  | Some m => ofZ m
  | None => PrimFloat.nan
  end.

(** *** Number to string (Number::toString, radix 10)

    For a finite non-zero value the digits are those of the integer [s]
    with the fewest digits [k] such that [s * 10 ^ (n - k)] is again the
    value; of two such [s] the one nearer to the value is taken. *)

Definition digitString (z : Z) : string := NilZero.string_of_uint (N.to_uint (Z.to_N z)).

(** Least [n], from [n] on, with [v < p] where [p = 10 ^ n]. *)
Fixpoint magnitudeUp (fuel : nat) (v : Q) (p n : Z) : Z :=
  match fuel with
  | O => n
  | S f => if Qle_bool (inject_Z p) v then magnitudeUp f v (p * 10) (n + 1) else n
  end.

(** For [v < 10 ^ n]: the greatest [n], from [n] down, with [10 ^ (n - 1) <= v]. *)
Fixpoint magnitudeDown (fuel : nat) (v : Q) (n : Z) : Z :=
  match fuel with
  | O => n
  | S f => if Qle_bool 1 (v * 10) then n else magnitudeDown f (v * 10)%Q (n - 1)
  end.

(** [n] with [10 ^ (n - 1) <= v < 10 ^ n], for [v] the value of a positive
    finite Number. *)
Definition magnitude (v : Q) : Z :=
  if Qle_bool 1 v then magnitudeUp 400 v 10 1 else magnitudeDown 400 v 0.

Definition roundsTo (x : number) (q : Q) : bool := PrimFloat.Leibniz.eqb (ofQ q) x.

(** The [s] of [k] digits, if any, and its [n]. *)
Definition shortestAt (x : number) (v : Q) (n k : Z) : option (Z * Z) :=
  let lo := Qfloor (v * scale10 1 (k - n)) in
  let hi := (lo + 1)%Z in
  let qlo := scale10 lo (n - k) in
  let qhi := scale10 hi (n - k) in
  let pick (s : Z) := if (s =? 10 ^ k)%Z then (10 ^ (k - 1), n + 1)%Z else (s, n) in
  match roundsTo x qlo, roundsTo x qhi with
  | true, true =>
      match Qcompare (v - qlo) (qhi - v) with
      | Lt => Some (pick lo)
      | Gt => Some (pick hi)
      | Eq => Some (pick (if Z.even lo then lo else hi))
      end
  | true, false => Some (pick lo)
  | false, true => Some (pick hi)
  | false, false => None
  end.

Fixpoint shortest (fuel : nat) (x : number) (v : Q) (n k : Z) : Z * Z * Z :=
  match fuel with
  | O => (0, n, k)%Z
  | S f =>
      match shortestAt x v n k with
      | Some (s, n') => (s, n', k)
      | None => shortest f x v n (k + 1)
      end
  end.

Definition zeros (n : Z) : string := String.concat "" (repeat "0"%string (Z.to_nat n)).

Definition exponentString (e : Z) : string :=
  ((if (0 <=? e)%Z then "e+" else "e-") ++ digitString (Z.abs e))%string.

(** The text for the digits [d] of [s], their number [k] and the exponent [n]. *)
Definition layout (d : string) (k n : Z) : string :=
  (if ((k <=? n) && (n <=? 21))%Z then d ++ zeros (n - k)
   else if ((0 <? n) && (n <=? 21))%Z then
     take (Z.to_nat n) d ++ "." ++ drop (Z.to_nat n) d
   else if ((-6 <? n) && (n <=? 0))%Z then "0." ++ zeros (- n) ++ d
   else if (k =? 1)%Z then d ++ exponentString (n - 1)
   else take 1 d ++ "." ++ drop 1 d ++ exponentString (n - 1))%string.

Definition positiveToString (x : number) : string :=
  match toQ x with
  | Some v =>
      let '(s, n, k) := shortest 17 x v (magnitude v) 1 in
      layout (digitString s) k n
  | None => "Infinity"
  end.

Definition toString (x : number) : string :=
  if PrimFloat.is_nan x then "NaN"
  else if PrimFloat.is_zero x then "0"
  else if PrimFloat.ltb x PrimFloat.zero
       then ("-" ++ positiveToString (PrimFloat.opp x))%string
       else positiveToString x.

End JS.

(** * Arithmetic

    The conversion functions use only literals, the four operations,
    [Math.floor], [Math.abs] and comparisons.  They are written once over
    this interface; the program runs them on binary64 values (the instance
    [Binary64]), and [Exact] reads the same text over the rationals, where
    no operation rounds. *)

Class Arith (num : Type) : Type := {
  lit : Q -> num;
  add : num -> num -> num;
  sub : num -> num -> num;
  mul : num -> num -> num;
  div : num -> num -> num;
  floor : num -> num;
  abs : num -> num;
  ltb : num -> num -> bool;
  leb : num -> num -> bool
}.

Declare Scope num_scope.
Delimit Scope num_scope with num.
Infix "+" := add : num_scope.
Infix "-" := sub : num_scope.
Infix "*" := mul : num_scope.
Infix "/" := div : num_scope.
Infix "<?" := ltb : num_scope.
Infix "<=?" := leb : num_scope.

#[export] Instance Binary64 : Arith float := {
  lit := JS.ofQ;
  add := PrimFloat.add;
  sub := PrimFloat.sub;
  mul := PrimFloat.mul;
  div := PrimFloat.div;
  floor := JS.floor;
  abs := PrimFloat.abs;
  ltb := PrimFloat.ltb;
  leb := PrimFloat.leb
}.

#[export] Instance Exact : Arith Q := {
  lit := fun q => q;
  add := Qplus;
  sub := Qminus;
  mul := Qmult;
  div := Qdiv;
  floor := fun q => inject_Z (Qfloor q);
  abs := Qabs;
  ltb := fun x y => negb (Qle_bool y x);
  leb := Qle_bool
}.

(** * The program *)

(** A call either returns or throws an [Error] with a message. *)
Inductive outcome (A : Type) : Type :=
| Return (a : A)
| Throw (message : string).
Arguments Return {A} a.
Arguments Throw {A} message.

Definition bind {A B : Type} (x : outcome A) (f : A -> outcome B) : outcome B :=
  match x with
  | Return a => f a
  | Throw m => Throw m
  end.

Notation "x <- e ;; k" := (bind e (fun x => k))
  (at level 61, e at next level, right associativity).

(** The date object: four properties, each a Number or [null]. *)
Record CyberDate (num : Type) : Type := {
  klik : option num;
  chord : option num;
  cycle : option num;
  solarCycle : option num
}.
Arguments Build_CyberDate {num} _ _ _ _.
Arguments klik {num} _.
Arguments chord {num} _.
Arguments cycle {num} _.
Arguments solarCycle {num} _.

(** The result of [differenceBetweenDates]. *)
Record Difference (num : Type) : Type := {
  diffSeconds : num;
  diffCyber : CyberDate num
}.
Arguments Build_Difference {num} _ _.
Arguments diffSeconds {num} _.
Arguments diffCyber {num} _.

Section Conversion.

Context {num : Type} `{Arith num}.
Local Open Scope num_scope.

Definition EARTH_YEAR_IN_DAYS : num := lit 365.25.
Definition SOLAR_CYCLE_YEARS : num := lit 10.
Definition SOLAR_CYCLE_DAYS : num := SOLAR_CYCLE_YEARS * EARTH_YEAR_IN_DAYS.

Definition CYCLE : num := SOLAR_CYCLE_DAYS / lit 1000.
Definition CHORD : num := CYCLE / lit 10 * lit 100.
Definition KLIK : num := CYCLE / lit 1000.
Definition ASTROSECOND : num := KLIK / lit 1000.
Definition ZETASECOND : num := ASTROSECOND / lit 100.

(** [if (field !== null) totalDays += field * unit]. *)
Definition addField (totalDays : num) (field : option num) (unit : num) : num :=
  match field with
  | Some v => totalDays + v * unit
  | None => totalDays
  end.

Definition cyberDateToEarthSeconds (date : CyberDate num) : num :=
  let totalDays := lit 0 in
  let totalDays := addField totalDays (solarCycle date) SOLAR_CYCLE_DAYS in
  let totalDays := addField totalDays (cycle date) CYCLE in
  let totalDays := addField totalDays (chord date) (CYCLE / lit 10) in
  let totalDays := addField totalDays (klik date) (CYCLE / lit 1000) in
  totalDays * lit 86400.

Definition earthSecondsToCyberDate (seconds : num) : CyberDate num :=
  let totalDays := seconds / lit 86400 in
  let solarCycle := floor (totalDays / SOLAR_CYCLE_DAYS) in
  let totalDays := totalDays - solarCycle * SOLAR_CYCLE_DAYS in
  let cycle := floor (totalDays / CYCLE) in
  let totalDays := totalDays - cycle * CYCLE in
  let chord := floor (totalDays / (CYCLE / lit 10)) in
  let totalDays := totalDays - chord * (CYCLE / lit 10) in
  let klik := floor (totalDays / (CYCLE / lit 1000)) in
  {| klik := Some klik; chord := Some chord; cycle := Some cycle;
     solarCycle := Some solarCycle |}.

Definition differenceBetweenDates (date1 date2 : CyberDate num) : Difference num :=
  let seconds1 := cyberDateToEarthSeconds date1 in
  let seconds2 := cyberDateToEarthSeconds date2 in
  let diffSeconds := abs (seconds2 - seconds1) in
  let diffCyber := earthSecondsToCyberDate diffSeconds in
  {| diffSeconds := diffSeconds; diffCyber := diffCyber |}.

End Conversion.

(** ** Text in, text out: the functions on binary64 values *)

Local Open Scope string_scope.

Definition date := CyberDate float.

(** [/\s*arc\s*/] *)
Definition arcPattern : JS.regex :=
  JS.Seq (JS.Star JS.isWhiteSpace) (JS.word JS.lit "arc" (JS.Star JS.isWhiteSpace)).

(** [/\s+/] *)
Definition spacesPattern : JS.regex := JS.Plus JS.isWhiteSpace.

(** The inner [forEach]: a NaN throws, any other number is pushed. *)
Fixpoint pushEach (arr numbers : list float) : outcome (list float) :=
  match arr with
  | [] => Return numbers
  | n :: rest =>
      if JS.isNaN n then Throw "Invalid number in date"
      else pushEach rest (numbers ++ [n])
  end.

(** The outer [forEach]. *)
Fixpoint flatten (parsedParts : list (list float)) (numbers : list float)
  : outcome (list float) :=
  match parsedParts with
  | [] => Return numbers
  | arr :: rest => numbers' <- pushEach arr numbers ;; flatten rest numbers'
  end.

(** The assignment by count; [None] is the [return null]. *)
Definition assign (numbers : list float) : option date :=
  match numbers with
  | [n0; n1; n2; n3] =>
      Some {| klik := Some n0; chord := Some n1; cycle := Some n2; solarCycle := Some n3 |}
  | [n0; n1; n2] =>
      Some {| klik := None; chord := Some n0; cycle := Some n1; solarCycle := Some n2 |}
  | [n0; n1] =>
      Some {| klik := Some n0; chord := Some n1; cycle := None; solarCycle := None |}
  | [n0] =>
      Some {| klik := None; chord := None; cycle := Some n0; solarCycle := None |}
  | _ => None
  end.

(** The tokens of an input text, in order: each part between [arc]s,
    trimmed, is cut at runs of white space. *)
Definition tokensOf (input : string) : list string :=
  let input := JS.toLowerCase (JS.trim input) in
  List.concat (map (fun part => JS.split spacesPattern (JS.trim part))
              (JS.split arcPattern input)).

Definition parseCybertronianDate (input : string) : outcome (option date) :=
  let input := JS.toLowerCase (JS.trim input) in
  let arcParts := JS.split arcPattern input in
  if (List.length arcParts <? 1)%nat then Return None
  else
    let parsedParts :=
      map (fun part => map JS.Number (JS.split spacesPattern (JS.trim part))) arcParts in
    numbers <- flatten parsedParts [] ;;
    Return (assign numbers).

Definition formatCyberDate (d : date) : string :=
  match solarCycle d, cycle d, chord d, klik d with
  | Some s, Some c, Some h, Some k =>
      JS.toString k ++ " arc " ++ JS.toString h ++ " " ++ JS.toString c
      ++ " arc " ++ JS.toString s
  | Some s, Some c, Some h, None =>
      JS.toString h ++ " " ++ JS.toString c ++ " arc " ++ JS.toString s
  | _, _, _, _ =>
      match klik d, chord d with
      | Some k, Some h => JS.toString k ++ " arc " ++ JS.toString h
      | _, _ =>
          match cycle d with
          | Some c => JS.toString c
          | None => "Invalid date"
          end
      end
  end.

(** The table [units] of [parseHumanTime], in the order it is written. *)
Definition units : list (string * float) :=
  [ ("year", 365.25 * 86400); ("years", 365.25 * 86400);
    ("week", 7 * 86400); ("weeks", 7 * 86400);
    ("day", 86400); ("days", 86400);
    ("hour", 3600); ("hours", 3600);
    ("minute", 60); ("minutes", 60);
    ("second", 1); ("seconds", 1) ]%float.

Fixpoint lookup (table : list (string * float)) (key : string) : option float :=
  match table with
  | [] => None
  | (k, v) :: rest => if String.eqb k key then Some v else lookup rest key
  end.

(** A Number in a condition: false for 0, -0 and NaN. *)
Definition truthy (x : float) : bool :=
  negb (PrimFloat.is_zero x) && negb (PrimFloat.is_nan x).

(** [years?], [weeks?], ... with the flag [i]. *)
Definition unitWord (w : string) : JS.regex :=
  JS.word JS.liti w (JS.Opt (JS.liti "s")).

(** [years?|weeks?|days?|hours?|minutes?|seconds?] *)
Definition unitsPattern : JS.regex :=
  JS.Alt (unitWord "year")
  (JS.Alt (unitWord "week")
  (JS.Alt (unitWord "day")
  (JS.Alt (unitWord "hour")
  (JS.Alt (unitWord "minute") (unitWord "second"))))).

(** [/(\d+)\s*(years?|weeks?|days?|hours?|minutes?|seconds?)/gi] *)
Definition durationPattern : JS.regex :=
  JS.Seq (JS.Group (JS.Plus JS.isDigit))
    (JS.Seq (JS.Star JS.isWhiteSpace) (JS.Group unitsPattern)).

(** The loop [while ((match = regex.exec(text)) !== null)] of a global
    pattern: the search resumes where the last match ended ([lastIndex]),
    [skip] code units ahead of the position looked at.  A match of
    [durationPattern] is never empty, so the search always moves on. *)
Fixpoint execAll (r : JS.regex) (s : string) (skip : nat) : list JS.captures :=
  match s with
  | EmptyString => []
  | String _ s' =>
      match skip with
      | S k => execAll r s' k
      | O =>
          match JS.matchAt r s with
          | Some (m, S k) => m :: execAll r s' k
          | _ => execAll r s' 0
          end
      end
  end.

(** The body of the loop, for the captures of one match. *)
Definition addMatch (totalSeconds : float) (m : JS.captures) : float :=
  match m with
  | [Some amount; Some word] =>
      let val := JS.parseIntDigits amount in
      let unit := JS.toLowerCase word in
      match lookup units unit with
      | Some u => if truthy u then (totalSeconds + val * u)%float else totalSeconds
      | None => totalSeconds
      end
  | _ => totalSeconds
  end.

Definition parseHumanTime (text : string) : float :=
  fold_left addMatch (execAll durationPattern text 0) 0%float.

(** *** The two forms that add and subtract Earth time

    [addEarthTime] and [subtractEarthTime] are the steps of the submit
    handlers between the parsed date and the new date; [addForm] and
    [subtractForm] are the handlers, from the two input values to the text
    shown. *)

Definition addEarthTime (d : date) (earthInput : string) : outcome date :=
  let earthSecondsToAdd := parseHumanTime earthInput in
  if (earthSecondsToAdd <=? 0)%float then Throw "Invalid or zero Earth time to add."
  else
    let startSeconds := cyberDateToEarthSeconds d in
    let newSeconds := (startSeconds + earthSecondsToAdd)%float in
    Return (earthSecondsToCyberDate newSeconds).

Definition subtractEarthTime (d : date) (earthInput : string) : outcome date :=
  let earthSecondsToSubtract := parseHumanTime earthInput in
  if (earthSecondsToSubtract <=? 0)%float
  then Throw "Invalid or zero Earth time to subtract."
  else
    let startSeconds := cyberDateToEarthSeconds d in
    let newSeconds := (startSeconds - earthSecondsToSubtract)%float in
    if (newSeconds <? 0)%float
    then Throw "Resulting date is before the start of Cybertronian time."
    else Return (earthSecondsToCyberDate newSeconds).

Definition parsedDate (input : string) : outcome date :=
  d <- parseCybertronianDate input ;;
  match d with
  | Some d => Return d
  | None => Throw "Invalid cybertronian date format."
  end.

Definition shown (heading : string) (r : outcome date) : string :=
  match r with
  | Return newDate => heading ++ formatCyberDate newDate
  | Throw message => "Error: " ++ message
  end.

Definition newline : string := String (ascii_of_nat 10) EmptyString.

Definition addForm (cyberInput earthInput : string) : string :=
  shown ("New Cybertronian Date:" ++ newline)
        (d <- parsedDate cyberInput ;; addEarthTime d earthInput).

Definition subtractForm (cyberInput earthInput : string) : string :=
  shown ("Cybertronian Date after subtracting time:" ++ newline)
        (d <- parsedDate cyberInput ;; subtractEarthTime d earthInput).

(** *** The form that explains a date

    The annotations of [explainDate] hold the sign U+2248 (almost equal
    to), a code unit above 255; [almostEqual] stands for the text of that
    one sign. *)

Definition push (parts : list string) (line : string) : list string :=
  (parts ++ [line])%list.

(** What a handler leaves in its result element. *)
Definition display (r : outcome string) : string :=
  match r with
  | Return text => text
  | Throw message => "Error: " ++ message
  end.

Section Explanation.

Variable almostEqual : string.

Definition explainDate (d : date) : string :=
  let parts := [] in
  let parts :=
    match solarCycle d with
    | Some v =>
        push parts ("Solar Cycle: " ++ JS.toString v
                    ++ " (Each solar cycle = 10 Earth years)")
    | None => parts
    end in
  let parts :=
    match cycle d with
    | Some v =>
        push parts ("Cycle: " ++ JS.toString v ++ " (Each cycle " ++ almostEqual
                    ++ " 3.65 Earth days)")
    | None => parts
    end in
  let parts :=
    match chord d with
    | Some v =>
        push parts ("Chord: " ++ JS.toString v ++ " (1/10 of a cycle " ++ almostEqual
                    ++ " 8.76 hours)")
    | None => parts
    end in
  let parts :=
    match klik d with
    | Some v =>
        push parts ("Klik: " ++ JS.toString v ++ " (1/1000 of a cycle " ++ almostEqual
                    ++ " 5 Earth minutes)")
    | None => parts
    end in
  String.concat newline parts.

Definition explainForm (input : string) : string :=
  display (d <- parsedDate input ;; Return (explainDate d)).

End Explanation.

(** *** The form that compares two dates *)

(** A property of a date in a template literal. *)
Definition fieldText (field : option float) : string :=
  match field with
  | Some v => JS.toString v
  | None => "null"
  end.

(** The elapsed Earth time, from the seconds to the text [humanElapsed]. *)
Definition humanElapsed (seconds : float) : string :=
  let remaining := seconds in
  let years := JS.floor (remaining / (365.25 * 86400))%float in
  let remaining := (remaining - years * 365.25 * 86400)%float in
  let weeks := JS.floor (remaining / (7 * 86400))%float in
  let remaining := (remaining - weeks * 7 * 86400)%float in
  let days := JS.floor (remaining / 86400)%float in
  let remaining := (remaining - days * 86400)%float in
  let hours := JS.floor (remaining / 3600)%float in
  let remaining := (remaining - hours * 3600)%float in
  let minutes := JS.floor (remaining / 60)%float in
  let remaining := (remaining - minutes * 60)%float in
  let secs := JS.floor remaining in
  JS.toString years ++ " years, " ++ JS.toString weeks ++ " weeks, "
  ++ JS.toString days ++ " days, " ++ JS.toString hours ++ " hours, "
  ++ JS.toString minutes ++ " minutes, " ++ JS.toString secs ++ " seconds".

(** The elapsed Cybertronian time, the text [cyberElapsed]. *)
Definition cyberElapsed (d : date) : string :=
  "Klik: " ++ fieldText (klik d) ++ ", Chord: " ++ fieldText (chord d)
  ++ ", Cycle: " ++ fieldText (cycle d) ++ ", Solar Cycle: " ++ fieldText (solarCycle d).

Definition compareDates (date1 date2 : date) : string :=
  let diff := differenceBetweenDates date1 date2 in
  "Elapsed Cybertronian Time:" ++ newline ++ cyberElapsed (diffCyber diff)
  ++ newline ++ newline ++ "Elapsed Earth Time:" ++ newline
  ++ humanElapsed (diffSeconds diff).

Definition compareForm (input1 input2 : string) : string :=
  display
    (date1 <- parseCybertronianDate input1 ;;
     date2 <- parseCybertronianDate input2 ;;
     match date1, date2 with
     | Some date1, Some date2 => Return (compareDates date1 date2)
     | _, _ => Throw "Invalid cybertronian date format."
     end).

(** * Notions the statements use *)

(** The tokens turned into Numbers, NaN included. *)
Definition numbersOf (input : string) : list float :=
  map JS.Number (tokensOf input).

(** The flattened number sequence of an input text: the array [numbers]
    after the two [forEach] loops, or the error the loops throw. *)
Definition flattened (input : string) : outcome (list float) :=
  flatten
    (map (fun part => map JS.Number (JS.split spacesPattern (JS.trim part)))
         (JS.split arcPattern (JS.toLowerCase (JS.trim input))))
    [].

(** A call to the parser fails when it throws or returns [null]. *)
Definition failed {A : Type} (r : outcome (option A)) : bool :=
  match r with
  | Return (Some _) => false
  | _ => true
  end.

Definition arityOk (n : nat) : bool :=
  (n =? 1)%nat || (n =? 2)%nat || (n =? 3)%nat || (n =? 4)%nat.

(** A call throws. *)
Definition thrown {A : Type} (r : outcome A) : bool :=
  match r with
  | Throw _ => true
  | Return _ => false
  end.

(** The seconds of a date as the specification words them: each field, or
    zero for a null one, times 3652.5, 3.6525, 0.36525 and 0.0036525 days,
    summed, times 86400. *)
Definition contribution (field : option float) (unitDays : float) : float :=
  match field with
  | Some v => (v * unitDays)%float
  | None => 0%float
  end.

Definition secondsAsSpecified (d : date) : float :=
  (86400 * (contribution (solarCycle d) 3652.5 + contribution (cycle d) 3.6525
            + contribution (chord d) 0.36525 + contribution (klik d) 0.0036525))%float.

(** The same over the rationals. *)
Definition exactContribution (field : option Q) (unitDays : Q) : Q :=
  match field with
  | Some v => (v * unitDays)%Q
  | None => 0%Q
  end.

(** The days of the non-null fields as the code sums them: from 0, in the
    order solarCycle, cycle, chord, klik, the chord's days being the
    quotient [3.6525 / 10]. *)
Definition term (field : option float) (unitDays : float) : list float :=
  match field with
  | Some v => [(v * unitDays)%float]
  | None => []
  end.

Definition daysOfNonNull (d : date) : float :=
  fold_left PrimFloat.add
    (term (solarCycle d) 3652.5 ++ term (cycle d) 3.6525
     ++ term (chord d) (3.6525 / 10) ++ term (klik d) 0.0036525)%list
    0%float.

(** The text of a date as the specification words it: four shapes, each for
    exactly its set of non-null fields, and ["Invalid date"] for every other. *)
Definition formatAsSpecified (d : date) : string :=
  match klik d, chord d, cycle d, solarCycle d with
  | Some k, Some h, Some c, Some s =>
      JS.toString k ++ " arc " ++ JS.toString h ++ " " ++ JS.toString c
      ++ " arc " ++ JS.toString s
  | None, Some h, Some c, Some s =>
      JS.toString h ++ " " ++ JS.toString c ++ " arc " ++ JS.toString s
  | Some k, Some h, None, None => JS.toString k ++ " arc " ++ JS.toString h
  | None, None, Some c, None => JS.toString c
  | _, _, _, _ => "Invalid date"
  end.

(** A valid date has a non-null field. *)
Definition valid {num : Type} (d : CyberDate num) : bool :=
  match klik d, chord d, cycle d, solarCycle d with
  | None, None, None, None => false
  | _, _, _, _ => true
  end.

Definition mkDate {num : Type} (k h c s : option num) : CyberDate num :=
  {| klik := k; chord := h; cycle := c; solarCycle := s |}.

(** The duration of a text as the specification words it: the text is
    scanned for an integer, optional white space and a unit word, in either
    case and with an optional plural; each such match, none overlapping
    another, adds its value times the seconds of its unit. *)
Inductive timeUnit : Type := Year | Week | Day | Hour | Minute | Second.

Definition unitName (u : timeUnit) : string :=
  match u with
  | Year => "year" | Week => "week" | Day => "day"
  | Hour => "hour" | Minute => "minute" | Second => "second"
  end.

Definition unitSeconds (u : timeUnit) : float :=
  match u with
  | Second => 1 | Minute => 60 | Hour => 3600 | Day => 86400
  | Week => 604800 | Year => 365.25 * 86400
  end%float.

(** The same letter, in either case. *)
Definition sameLetter (c d : ascii) : bool :=
  Ascii.eqb (JS.lowerChar d) c && (JS.code d <? 128)%nat.

(** The rest of [s] after the word [w], written in either case. *)
Fixpoint afterWord (w s : string) : option string :=
  match w, s with
  | EmptyString, _ => Some s
  | String c w', String d s' => if sameLetter c d then afterWord w' s' else None
  | String _ _, EmptyString => None
  end.

(** The rest of [s] after an optional plural. *)
Definition afterPlural (s : string) : string :=
  match s with
  | String d s' => if sameLetter "s" d then s' else s
  | EmptyString => s
  end.

(** The unit word at the start of [s], and the rest after it. *)
Fixpoint unitAmong (us : list timeUnit) (s : string) : option (timeUnit * string) :=
  match us with
  | [] => None
  | u :: us' =>
      match afterWord (unitName u) s with
      | Some r => Some (u, afterPlural r)
      | None => unitAmong us' s
      end
  end.

Definition unitAt (s : string) : option (timeUnit * string) :=
  unitAmong [Year; Week; Day; Hour; Minute; Second] s.

Fixpoint dropWhile (p : ascii -> bool) (s : string) : string :=
  match s with
  | String c s' => if p c then dropWhile p s' else s
  | EmptyString => EmptyString
  end.

(** A duration at the start of [s]: its digits, as many as there are, its
    unit and the number of code units it takes. *)
Definition durationAt (s : string) : option (string * timeUnit * nat) :=
  match s with
  | String c _ =>
      if JS.isDigit c then
        let r := dropWhile JS.isDigit s in
        match unitAt (dropWhile JS.isWhiteSpace r) with
        | Some (u, rest) =>
            Some (JS.take (String.length s - String.length r) s, u,
                  (String.length s - String.length rest)%nat)
        | None => None
        end
      else None
  | EmptyString => None
  end.

(** The durations of a text, left to right; [skip] code units belong to
    the duration found last. *)
Fixpoint durationsFrom (s : string) (skip : nat) : list (string * timeUnit) :=
  match s with
  | EmptyString => []
  | String _ s' =>
      match skip with
      | S k => durationsFrom s' k
      | O =>
          match durationAt s with
          | Some (digits, u, S k) => (digits, u) :: durationsFrom s' k
          | _ => durationsFrom s' 0
          end
      end
  end.

Definition durations (text : string) : list (string * timeUnit) :=
  durationsFrom text 0.

Definition secondsOfDurations (ds : list (string * timeUnit)) : float :=
  fold_left (fun total '(digits, u) =>
               (total + JS.parseIntDigits digits * unitSeconds u)%float)
            ds 0%float.

(** A string that begins with a character of the class. *)
Definition begins (p : ascii -> bool) (s : string) : Prop :=
  match s with
  | String c _ => p c = true
  | EmptyString => False
  end.

(** * Tactics *)

(** Closed statements are settled by evaluation, conjunct by conjunct. *)
Ltac evaluate :=
  cbv zeta;
  repeat match goal with |- _ /\ _ => split end;
  vm_compute; reflexivity.

(** The operations of [Binary64] are the primitive ones. *)
Ltac primitive :=
  change (@abs float Binary64) with PrimFloat.abs in *;
  change (@sub float Binary64) with PrimFloat.sub in *;
  change (@add float Binary64) with PrimFloat.add in *;
  change (@mul float Binary64) with PrimFloat.mul in *;
  change (@div float Binary64) with PrimFloat.div in *;
  change (@ltb float Binary64) with PrimFloat.ltb in *;
  change (@leb float Binary64) with PrimFloat.leb in *.

(** The operations of [Exact] are those of the rationals. *)
Ltac rational :=
  cbn [lit add sub mul div floor abs Exact] in *.


(** * Notions of the further properties *)

(** Every code unit of a string is in the class. *)
Fixpoint every (p : ascii -> bool) (s : string) : bool :=
  match s with
  | EmptyString => true
  | String c s' => p c && every p s'
  end.

(** Some token of an input text is not a number. *)
Definition anyNaN (input : string) : bool :=
  existsb (fun token => JS.isNaN (JS.Number token)) (tokensOf input).

(** The non-null fields of a date. *)
Definition fieldsOf {num : Type} (d : CyberDate num) : list num :=
  (match klik d with Some v => [v] | None => [] end
   ++ match chord d with Some v => [v] | None => [] end
   ++ match cycle d with Some v => [v] | None => [] end
   ++ match solarCycle d with Some v => [v] | None => [] end)%list.

(** The first code unit of a string is [c]. *)
Definition headIs (c : ascii) (s : string) : bool :=
  match s with
  | String d _ => Ascii.eqb d c
  | EmptyString => false
  end.

(** A binary64 value that is positive and at least 1: infinite, or finite
    with its leading bit at or above the units. *)
Definition oneOrMore (x : spec_float) : Prop :=
  match x with
  | S754_infinity false => True
  | S754_finite false m e => (1 <= Zpos (digits2_pos m) + e)%Z
  | _ => False
  end.

(** +0, or positive and at least 1. *)
Definition zeroOrMore (x : spec_float) : Prop :=
  x = S754_zero false \/ oneOrMore x.

(** An amount written with the digit 0 only. *)
Definition zeroAmount (digits : string) : bool := every (Ascii.eqb "0") digits.

(** A date with 0 in the place of every null field. *)
Definition orZero (field : option float) : option float :=
  match field with
  | Some v => Some v
  | None => Some 0%float
  end.

Definition zeroed (d : date) : date :=
  {| klik := orZero (klik d); chord := orZero (chord d);
     cycle := orZero (cycle d); solarCycle := orZero (solarCycle d) |}.

(** * The parser *)

Lemma pushEach_spec (arr numbers : list float) :
  pushEach arr numbers =
  if existsb JS.isNaN arr then Throw "Invalid number in date"
  else Return (numbers ++ arr)%list.
Proof.
  revert numbers; induction arr as [|n rest IH]; intros numbers; simpl.
  - now rewrite app_nil_r.
  - destruct (JS.isNaN n); simpl; [reflexivity|].
    rewrite IH, <- app_assoc. reflexivity.
Qed.

Lemma flatten_spec (parsedParts : list (list float)) (numbers : list float) :
  flatten parsedParts numbers =
  if existsb JS.isNaN (List.concat parsedParts) then Throw "Invalid number in date"
  else Return (numbers ++ List.concat parsedParts)%list.
Proof.
  revert numbers; induction parsedParts as [|arr rest IH]; intros numbers.
  - simpl. now rewrite app_nil_r.
  - cbn [flatten List.concat]. rewrite pushEach_spec, existsb_app.
    destruct (existsb JS.isNaN arr); cbn [bind orb]; [reflexivity|].
    rewrite IH, <- app_assoc. reflexivity.
Qed.

Lemma splitLoop_nonempty (r : JS.regex) (s : string) :
  forall skip piece, JS.splitLoop r s skip piece <> [].
Proof.
  induction s as [|c s IH]; intros skip piece; simpl; [discriminate|].
  destruct skip; [|apply IH].
  destruct (JS.matchAt r (String c s)) as [[m [|k]]|];
    try destruct piece; try discriminate; apply IH.
Qed.

(** A separator that does not match the empty string always leaves a piece. *)
Lemma split_nonempty (r : JS.regex) (s : string) :
  JS.matchAt r EmptyString = None -> JS.split r s <> [].
Proof.
  intros E. destruct s as [|c s]; unfold JS.split.
  - rewrite E. discriminate.
  - apply splitLoop_nonempty.
Qed.

Lemma arcPattern_not_empty : JS.matchAt arcPattern EmptyString = None.
Proof. reflexivity. Qed.

Lemma spacesPattern_not_empty : JS.matchAt spacesPattern EmptyString = None.
Proof. reflexivity. Qed.

(** The token sequence of an input text is never empty: the empty string
    itself is a token. *)
Lemma tokensOf_nonempty (input : string) : tokensOf input <> [].
Proof.
  unfold tokensOf.
  pose proof (split_nonempty arcPattern (JS.toLowerCase (JS.trim input))
                arcPattern_not_empty) as P.
  destruct (JS.split arcPattern (JS.toLowerCase (JS.trim input))) as [|part parts];
    [contradiction|]. simpl.
  pose proof (split_nonempty spacesPattern (JS.trim part) spacesPattern_not_empty) as Q.
  destruct (JS.split spacesPattern (JS.trim part)); [contradiction|discriminate].
Qed.

Lemma existsb_map {A B : Type} (f : B -> bool) (g : A -> B) (l : list A) :
  existsb f (map g l) = existsb (fun x => f (g x)) l.
Proof. induction l as [|x l IH]; simpl; [reflexivity|now rewrite IH]. Qed.

(** The loops throw on a NaN and otherwise keep every number. *)
Lemma flattened_spec (input : string) :
  flattened input =
  if existsb JS.isNaN (numbersOf input) then Throw "Invalid number in date"
  else Return (numbersOf input).
Proof.
  unfold flattened, numbersOf, tokensOf.
  rewrite flatten_spec, concat_map, map_map. reflexivity.
Qed.

(** The parser assigns the flattened sequence; the guard on [arcParts] never fires. *)
Lemma parse_flattened (input : string) :
  parseCybertronianDate input =
  (numbers <- flattened input ;; Return (assign numbers)).
Proof.
  unfold parseCybertronianDate, flattened.
  pose proof (split_nonempty arcPattern (JS.toLowerCase (JS.trim input))
                arcPattern_not_empty) as P.
  destruct (JS.split arcPattern (JS.toLowerCase (JS.trim input))) as [|part parts] eqn:E;
    [contradiction|].
  reflexivity.
Qed.

Lemma assign_arity (numbers : list float) :
  match assign numbers with Some _ => true | None => false end
  = arityOk (List.length numbers).
Proof. destruct numbers as [|a [|b [|c [|d [|e l]]]]]; reflexivity. Qed.

(** The parser fails exactly when a token is not a number or the tokens are
    not one to four. *)
Lemma parse_fails_iff (input : string) :
  failed (parseCybertronianDate input) =
  existsb (fun token => JS.isNaN (JS.Number token)) (tokensOf input)
  || negb (arityOk (List.length (tokensOf input))).
Proof.
  rewrite parse_flattened, flattened_spec. unfold numbersOf.
  rewrite existsb_map.
  destruct (existsb _ (tokensOf input)); [reflexivity|].
  cbn [bind orb failed].
  pose proof (assign_arity (map JS.Number (tokensOf input))) as A.
  rewrite length_map in A. rewrite <- A.
  destruct (assign _); reflexivity.
Qed.

(** C1.  When the flattened number sequence has four, three, two or one
    numbers, the parser assigns them left to right as klik, chord, cycle,
    solarCycle; as chord, cycle, solarCycle; as klik, chord; as cycle; the
    other fields are null.  So ["5 arc 3"], ["7"] and ["1 2 arc 3"] parse as
    the specification says. *)
Theorem parse_assigns_by_arity :
  (forall input : string,
     (forall n0 n1 n2 n3, flattened input = Return [n0; n1; n2; n3] ->
        parseCybertronianDate input =
        Return (Some {| klik := Some n0; chord := Some n1;
                        cycle := Some n2; solarCycle := Some n3 |}))
     /\ (forall n0 n1 n2, flattened input = Return [n0; n1; n2] ->
        parseCybertronianDate input =
        Return (Some {| klik := None; chord := Some n0;
                        cycle := Some n1; solarCycle := Some n2 |}))
     /\ (forall n0 n1, flattened input = Return [n0; n1] ->
        parseCybertronianDate input =
        Return (Some {| klik := Some n0; chord := Some n1;
                        cycle := None; solarCycle := None |}))
     /\ (forall n0, flattened input = Return [n0] ->
        parseCybertronianDate input =
        Return (Some {| klik := None; chord := None;
                        cycle := Some n0; solarCycle := None |})))
  /\ parseCybertronianDate "5 arc 3" =
     Return (Some {| klik := Some 5%float; chord := Some 3%float;
                     cycle := None; solarCycle := None |})
  /\ parseCybertronianDate "7" =
     Return (Some {| klik := None; chord := None;
                     cycle := Some 7%float; solarCycle := None |})
  /\ parseCybertronianDate "1 2 arc 3" =
     Return (Some {| klik := None; chord := Some 1%float;
                     cycle := Some 2%float; solarCycle := Some 3%float |}).
Proof.
  split; [|evaluate].
  intros input; repeat split; intros; rewrite parse_flattened;
    match goal with E : flattened _ = _ |- _ => rewrite E end; reflexivity.
Qed.

Lemma parse_assigns_by_arity_witness :
  parseCybertronianDate "54 arc 4 593 arc 129" =
  Return (Some {| klik := Some 54%float; chord := Some 4%float;
                  cycle := Some 593%float; solarCycle := Some 129%float |}).
Proof.
  apply (proj1 (proj1 parse_assigns_by_arity "54 arc 4 593 arc 129")).
  vm_compute. reflexivity.
Defined.

(** C2.  The empty text and a text of white space only do not fail: their
    one token is the empty string, which [Number] reads as 0, and the parser
    returns the date with cycle 0. *)
Theorem parse_accepts_empty_text :
  tokensOf "" = [""]
  /\ flattened "" = Return [0%float]
  /\ parseCybertronianDate "" =
     Return (Some {| klik := None; chord := None;
                     cycle := Some 0%float; solarCycle := None |})
  /\ parseCybertronianDate "   " =
     Return (Some {| klik := None; chord := None;
                     cycle := Some 0%float; solarCycle := None |})
  /\ failed (parseCybertronianDate "abc") = true.
Proof. evaluate. Qed.

(** * Binary64 facts *)

Lemma SFmul_comm (x y : spec_float) : SF64mul x y = SF64mul y x.
Proof.
  destruct x as [sx|sx| |sx mx ex], y as [sy|sy| |sy my ey]; simpl;
    try rewrite (xorb_comm sx sy); try reflexivity.
  now rewrite (Pos.mul_comm mx my), (Z.add_comm ex ey).
Qed.

Lemma mul_comm (x y : float) : (x * y = y * x)%float.
Proof. apply Prim2SF_inj. rewrite !mul_spec. apply SFmul_comm. Qed.

Lemma SFabs_round_aux (s1 s2 : bool) (m e : Z) (l : location) :
  SFabs (binary_round_aux prec emax s1 m e l) = SFabs (binary_round_aux prec emax s2 m e l).
Proof.
  unfold binary_round_aux.
  destruct (shr_fexp prec emax m e l) as [mrs e'].
  destruct (shr_fexp prec emax _ e' loc_Exact) as [mrs' e''].
  destruct (shr_m mrs'); [reflexivity| |reflexivity].
  destruct (e'' <=? emax - prec)%Z; reflexivity.
Qed.

Lemma SFabs_normalize_opp (z e : Z) :
  SFabs (binary_normalize prec emax (- z) e false)
  = SFabs (binary_normalize prec emax z e false).
Proof.
  destruct z as [|m|m]; simpl; [reflexivity| |]; unfold binary_round;
    destruct (shl_align m e _) as [mz ez]; apply SFabs_round_aux.
Qed.

Lemma SFabs_sub_swap (x y : spec_float) :
  SFabs (SF64sub x y) = SFabs (SF64sub y x).
Proof.
  destruct x as [sx|sx| |sx mx ex], y as [sy|sy| |sy my ey]; simpl;
    try reflexivity; try (destruct sx, sy; reflexivity).
  rewrite (Z.min_comm ey ex).
  rewrite <- SFabs_normalize_opp. f_equal. f_equal. lia.
Qed.

(** [Math.abs(a - b)] does not depend on the order of [a] and [b]. *)
Lemma abs_sub_swap (a b : float) :
  PrimFloat.abs (a - b)%float = PrimFloat.abs (b - a)%float.
Proof. apply Prim2SF_inj. rewrite !abs_spec, !sub_spec. apply SFabs_sub_swap. Qed.

Lemma finite_cases (x : float) :
  JS.isFinite x = true ->
  (exists s, Prim2SF x = S754_zero s) \/ (exists s m e, Prim2SF x = S754_finite s m e).
Proof.
  unfold JS.isFinite, Prim2SF. intros F.
  destruct (is_nan x); [discriminate|].
  destruct (is_zero x); [left; eauto|].
  destruct (is_infinity x); [discriminate|].
  destruct (Z.frexp x) as [r ex].
  destruct (shr_fexp prec emax _ _ loc_Exact) as [mrs e'].
  destruct (shr_m mrs); [left|right|left]; eauto.
Qed.

(** A finite value minus itself is +0. *)
Lemma abs_sub_diag (x : float) :
  JS.isFinite x = true -> PrimFloat.abs (x - x)%float = 0%float.
Proof.
  intros F. apply Prim2SF_inj. rewrite abs_spec, sub_spec.
  destruct (finite_cases x F) as [[s E]|[s [m [e E]]]]; rewrite E.
  - destruct s; reflexivity.
  - simpl. rewrite Z.sub_diag. reflexivity.
Qed.

(** * Dates to seconds *)

Lemma unit_days :
  @SOLAR_CYCLE_DAYS float _ = 3652.5%float
  /\ @CYCLE float _ = 3.6525%float
  /\ (@CYCLE float _ / lit 10)%num = (3.6525 / 10)%float
  /\ (@CYCLE float _ / lit 10)%num = 0.36524999999999996%float
  /\ (@CYCLE float _ / lit 1000)%num = 0.0036525%float
  /\ PrimFloat.eqb (3.6525 / 10) 0.36525 = false
  /\ PrimFloat.next_down 0.36525 = (3.6525 / 10)%float.
Proof. evaluate. Qed.

Lemma literals : @lit float _ 0 = 0%float /\ @lit float _ 86400 = 86400%float.
Proof. evaluate. Qed.

(** C3, as the code has it.  [cyberDateToEarthSeconds] is a total function
    of the date: it is 86400 times the sum, from 0 and in the order
    solarCycle, cycle, chord, klik, of each non-null field times its days:
    3652.5, 3.6525, the quotient 3.6525 / 10 (the binary64 value
    0.36524999999999996, one unit in the last place below 0.36525), and
    0.0036525; a null field adds nothing. *)
Theorem seconds_of_non_null_fields (d : date) :
  cyberDateToEarthSeconds d = (86400 * daysOfNonNull d)%float.
Proof.
  rewrite mul_comm. unfold cyberDateToEarthSeconds, daysOfNonNull.
  destruct unit_days as (E1 & E2 & E3 & _ & E5 & _ & _).
  destruct literals as [L0 L1].
  rewrite E3, E5, E1, E2, L0, L1.
  destruct d as [[k|] [h|] [c|] [s|]]; reflexivity.
Qed.

(** C3, the counterexample.  For the date with chord 3 and nothing else the
    code returns 94672.79999999997, and the formula of the specification,
    with 0.36525 days for a chord, gives 94672.8, which is also the binary64
    value nearest to the exact product. *)
Lemma seconds_differ_from_specified :
  let d := mkDate None (Some 3%float) None None in
  cyberDateToEarthSeconds d = 94672.79999999997%float
  /\ secondsAsSpecified d = 94672.8%float
  /\ JS.ofQ (86400 * (3 * 0.36525))%Q = 94672.8%float
  /\ cyberDateToEarthSeconds d <> secondsAsSpecified d.
Proof.
  cbv zeta. repeat (split; [evaluate|]).
  intros E.
  pose proof (f_equal (fun x => PrimFloat.eqb x 94672.8) E) as B.
  vm_compute in B. discriminate B.
Qed.

(** * The same text over the rationals *)

Local Open Scope Q_scope.

Lemma floor_step (x u : Q) :
  0 < u ->
  0 <= x - inject_Z (Qfloor (x / u)) * u /\ x - inject_Z (Qfloor (x / u)) * u < u.
Proof.
  intros U.
  assert (N : ~ u == 0) by (intros E; rewrite E in U; discriminate U).
  pose proof (Qfloor_le (x / u)) as L.
  pose proof (Qlt_floor (x / u)) as G.
  rewrite inject_Z_plus in G. change (inject_Z 1) with 1 in G.
  apply (Qmult_le_compat_r _ _ u) in L; [|apply Qlt_le_weak, U].
  apply (Qmult_lt_compat_r _ _ u U) in G.
  assert (E : x / u * u == x) by (rewrite Qmult_comm; apply Qmult_div_r, N).
  rewrite E in L, G.
  split; lra.
Qed.

Lemma floor_nonneg (x : Q) : 0 <= x -> (0 <= Qfloor x)%Z.
Proof. intros P. apply (Qfloor_resp_le 0 x) in P. exact P. Qed.

Lemma floor_below (x : Q) (n : Z) : x < inject_Z n -> (Qfloor x <= n - 1)%Z.
Proof.
  intros L. pose proof (Qfloor_le x) as F.
  assert (B : inject_Z (Qfloor x) < inject_Z n) by lra.
  rewrite <- Zlt_Qlt in B. lia.
Qed.

(** Over the rationals the units are exactly 3652.5, 3.6525, 0.36525 and
    0.0036525 days. *)
Lemma exact_unit_days :
  @SOLAR_CYCLE_DAYS Q _ == 3652.5
  /\ @CYCLE Q _ == 3.6525
  /\ (@CYCLE Q _ / lit 10)%num == 0.36525
  /\ (@CYCLE Q _ / lit 1000)%num == 0.0036525.
Proof. repeat split; vm_compute; reflexivity. Qed.

(** Over the rationals the seconds of a date are exactly the formula of the
    specification. *)
Lemma exact_toSeconds (d : CyberDate Q) :
  cyberDateToEarthSeconds d ==
  86400 * (exactContribution (solarCycle d) 3652.5
           + exactContribution (cycle d) 3.6525
           + exactContribution (chord d) 0.36525
           + exactContribution (klik d) 0.0036525).
Proof.
  unfold cyberDateToEarthSeconds, addField, exactContribution.
  destruct exact_unit_days as (E1 & E2 & E3 & E4).
  destruct d as [[k|] [h|] [c|] [s|]]; cbn [klik chord cycle solarCycle];
    rational; rewrite ?E3, ?E4, ?E2, ?E1; ring.
Qed.

(** Every field of the date of any seconds is set. *)
Lemma fromSeconds_populated {num : Type} `{Arith num} (s : num) :
  exists k h c y : num,
    earthSecondsToCyberDate s = mkDate (Some k) (Some h) (Some c) (Some y).
Proof. unfold earthSecondsToCyberDate. do 4 eexists. reflexivity. Qed.

Lemma quotient_nonneg (x u : Q) : 0 <= x -> 0 < u -> 0 <= x / u.
Proof. intros X U. apply Qle_shift_div_l; [exact U|lra]. Qed.

Lemma quotient_below (x u n : Q) : 0 < u -> x < n * u -> x / u < n.
Proof. intros U X. apply Qlt_shift_div_r; assumption. Qed.

(** One floored division: the quotient is an integer from 0 up to [n - 1]
    and the remainder lies in [0, u). *)
Lemma floored_division (x u : Q) (n : Z) :
  0 < u -> 0 <= x -> x < inject_Z n * u ->
  let q := Qfloor (x / u) in
  (0 <= q <= n - 1)%Z /\ 0 <= x - inject_Z q * u /\ x - inject_Z q * u < u.
Proof.
  intros U X B q. subst q. repeat split.
  - apply floor_nonneg, quotient_nonneg; assumption.
  - apply floor_below, quotient_below; assumption.
  - apply floor_step, U.
  - apply floor_step, U.
Qed.

Lemma exact_fromSeconds (s : Q) :
  0 <= s ->
  exists k h c y : Z,
    earthSecondsToCyberDate s
    = mkDate (Some (inject_Z k)) (Some (inject_Z h)) (Some (inject_Z c))
             (Some (inject_Z y))
    /\ (0 <= k <= 99)%Z /\ (0 <= h <= 9)%Z /\ (0 <= c <= 999)%Z /\ (0 <= y)%Z
    /\ 0 <= s - cyberDateToEarthSeconds (earthSecondsToCyberDate s)
    /\ s - cyberDateToEarthSeconds (earthSecondsToCyberDate s) < 0.0036525 * 86400.
Proof.
  intros S.
  unfold earthSecondsToCyberDate, cyberDateToEarthSeconds, addField.
  cbv zeta. cbn [klik chord cycle solarCycle].
  destruct exact_unit_days as (E1 & E2 & E3 & E4).
  rational.
  set (U3 := CYCLE / 10) in *. set (U4 := CYCLE / 1000) in *.
  set (U2 := CYCLE) in *. set (U1 := SOLAR_CYCLE_DAYS) in *.
  clearbody U1 U2 U3 U4.
  set (td := s / 86400).
  assert (T : td * 86400 == s)
    by (unfold td; rewrite Qmult_comm; apply Qmult_div_r; discriminate).
  assert (T0 : 0 <= td) by (apply quotient_nonneg; [exact S|reflexivity]).
  clearbody td.
  (* the solar cycle *)
  pose proof (floor_nonneg (td / U1)) as Y0.
  pose proof (floor_step td U1) as [Y1 Y2]; [lra|].
  set (y := Qfloor (td / U1)) in *. clearbody y.
  set (r1 := td - inject_Z y * U1) in *.
  assert (R1 : r1 == td - inject_Z y * U1) by reflexivity. clearbody r1.
  (* the cycle *)
  destruct (floored_division r1 U2 1000) as (C0 & C1 & C2); [lra|lra| |].
  { change (inject_Z 1000) with 1000. lra. }
  set (c := Qfloor (r1 / U2)) in *. clearbody c.
  set (r2 := r1 - inject_Z c * U2) in *.
  assert (R2 : r2 == r1 - inject_Z c * U2) by reflexivity. clearbody r2.
  (* the chord *)
  destruct (floored_division r2 U3 10) as (H0 & H1 & H2); [lra|lra| |].
  { change (inject_Z 10) with 10. lra. }
  set (h := Qfloor (r2 / U3)) in *. clearbody h.
  set (r3 := r2 - inject_Z h * U3) in *.
  assert (R3 : r3 == r2 - inject_Z h * U3) by reflexivity. clearbody r3.
  (* the klik *)
  destruct (floored_division r3 U4 100) as (K0 & K1 & K2); [lra|lra| |].
  { change (inject_Z 100) with 100. lra. }
  set (k := Qfloor (r3 / U4)) in *. clearbody k.
  exists k, h, c, y.
  split; [reflexivity|].
  split; [lia|]. split; [lia|]. split; [lia|].
  split; [apply Y0, quotient_nonneg; [exact T0|lra]|].
  rewrite E1, E2, E3, E4 in *.
  split; lra.
Qed.

(** Over the rationals every date differs from itself by 0 seconds. *)
Lemma exact_difference_self (d : CyberDate Q) :
  diffSeconds (differenceBetweenDates d d) == 0.
Proof.
  unfold differenceBetweenDates. cbv zeta. cbn [diffSeconds]. rational.
  assert (E : cyberDateToEarthSeconds d - cyberDateToEarthSeconds d == 0) by ring.
  rewrite E. reflexivity.
Qed.

Local Close Scope Q_scope.

(** * Seconds to dates *)

(** C4.  For 400150368 seconds, the seconds of the date 0 arc 0 268 arc 1,
    the code returns chord -1 and klik 99.  After the solar cycle
    978.8699999999999 days remain; their quotient by the cycle rounds to
    268, but 268 cycles are 978.87 days, so the remainder is negative and
    the next floor is -1.  The difference between that date and the origin
    therefore has chord -1.  Over the rationals the same text gives
    0 arc 0 268 arc 1, and for all non-negative seconds every field is a
    non-negative integer. *)
Theorem fromSeconds_negative_field :
  let d := (mkDate (Some 0) (Some 0) (Some 268) (Some 1))%float in
  let origin := (mkDate (Some 0) (Some 0) (Some 0) (Some 0))%float in
  let totalDays := (400150368 / 86400 - 1 * SOLAR_CYCLE_DAYS)%float in
  parseCybertronianDate "0 arc 0 268 arc 1" = Return (Some d)
  /\ cyberDateToEarthSeconds d = 400150368%float
  /\ earthSecondsToCyberDate 400150368%float
     = (mkDate (Some 99) (Some (-1)) (Some 268) (Some 1))%float
  /\ totalDays = 978.8699999999999%float
  /\ (totalDays / CYCLE)%float = 268%float
  /\ (268 * CYCLE)%float = 978.87%float
  /\ (totalDays - 268 * CYCLE)%float = (-1.1368683772161603e-13)%float
  /\ JS.floor ((totalDays - 268 * CYCLE) / (CYCLE / 10))%float = (-1)%float
  /\ diffCyber (differenceBetweenDates origin d)
     = (mkDate (Some 99) (Some (-1)) (Some 268) (Some 1))%float
  /\ earthSecondsToCyberDate 400150368%Q
     = (mkDate (Some 0) (Some 0) (Some 268) (Some 1))%Q
  /\ (forall s : Q, (0 <= s)%Q ->
      exists k h c y : Z,
        earthSecondsToCyberDate s
        = mkDate (Some (inject_Z k)) (Some (inject_Z h)) (Some (inject_Z c))
                 (Some (inject_Z y))
        /\ (0 <= k)%Z /\ (0 <= h)%Z /\ (0 <= c)%Z /\ (0 <= y)%Z).
Proof.
  cbv zeta. repeat (split; [evaluate|]).
  intros s S. destruct (exact_fromSeconds s S) as (k & h & c & y & E & K & H & C & Y & _).
  exists k, h, c, y. repeat split; try exact E; lia.
Qed.

Lemma fromSeconds_negative_field_witness :
  exists k h c y : Z,
    earthSecondsToCyberDate 400150368%Q
    = mkDate (Some (inject_Z k)) (Some (inject_Z h)) (Some (inject_Z c))
             (Some (inject_Z y))
    /\ (0 <= k)%Z /\ (0 <= h)%Z /\ (0 <= c)%Z /\ (0 <= y)%Z.
Proof.
  apply fromSeconds_negative_field. unfold Qle. simpl. lia.
Defined.

(** C5.  For 749493 seconds, which are 2 cycles, 3 chords and 75 kliks
    exactly, the code returns klik 74: the days left for the kliks are
    0.2739374999999997, and their quotient by the klik is
    74.99999999999993.  The seconds of that date, 749177.4239999999, are
    315.57600000011735 away from 749493, more than one klik
    (0.0036525 * 86400 = 315.576 seconds), also as exact numbers.  Over the
    rationals the same text gives klik 75, and for all non-negative seconds
    the seconds of the date are at most the seconds given and less than one
    klik below them. *)
Theorem round_trip_exceeds_one_klik :
  let s := 749493%float in
  let back := cyberDateToEarthSeconds (earthSecondsToCyberDate s) in
  let totalDays := (s / 86400 - 0 * SOLAR_CYCLE_DAYS - 2 * CYCLE - 3 * (CYCLE / 10))%float in
  earthSecondsToCyberDate s = (mkDate (Some 74) (Some 3) (Some 2) (Some 0))%float
  /\ totalDays = 0.2739374999999997%float
  /\ (totalDays / (CYCLE / 1000))%float = 74.99999999999993%float
  /\ back = 749177.4239999999%float
  /\ PrimFloat.abs (back - s) = 315.57600000011735%float
  /\ (0.0036525 * 86400)%float = 315.576%float
  /\ (0.0036525 * 86400 <? PrimFloat.abs (back - s))%float = true
  /\ option_map (fun v => Qle_bool (749493 - v) (0.0036525 * 86400)) (JS.toQ back)
     = Some false
  /\ earthSecondsToCyberDate 749493%Q = (mkDate (Some 75) (Some 3) (Some 2) (Some 0))%Q
  /\ (forall s : Q, (0 <= s)%Q ->
      (0 <= s - cyberDateToEarthSeconds (earthSecondsToCyberDate s))%Q
      /\ (s - cyberDateToEarthSeconds (earthSecondsToCyberDate s)
          < 0.0036525 * 86400)%Q).
Proof.
  cbv zeta. repeat (split; [evaluate|]).
  intros s S. destruct (exact_fromSeconds s S) as (k & h & c & y & _ & _ & _ & _ & _ & R).
  exact R.
Qed.

Lemma round_trip_exceeds_one_klik_witness :
  (0 <= 749493 - cyberDateToEarthSeconds (earthSecondsToCyberDate 749493))%Q
  /\ (749493 - cyberDateToEarthSeconds (earthSecondsToCyberDate 749493)
      < 0.0036525 * 86400)%Q.
Proof.
  apply round_trip_exceeds_one_klik. unfold Qle. simpl. lia.
Defined.

(** C10.  The fields below the solar cycle leave their ranges.  478728792
    seconds, the seconds of the date 0 arc 0 517 arc 1, give chord -1: after
    517 cycles the remainder is negative.  The binary64 value just below
    315576, one cycle, gives chord 10 and klik -1: its days,
    3.6524999999999994, are below one cycle but their quotient by the
    chord rounds to 10.  Over the rationals the same text gives
    0 arc 0 517 arc 1 for the first, and for all non-negative seconds klik,
    chord and cycle stay within 0..99, 0..9 and 0..999. *)
Theorem fromSeconds_out_of_range :
  let d := (mkDate (Some 0) (Some 0) (Some 517) (Some 1))%float in
  let totalDays := (478728792 / 86400 - 1 * SOLAR_CYCLE_DAYS)%float in
  let justBelow := (315575.99999999994 / 86400)%float in
  parseCybertronianDate "0 arc 0 517 arc 1" = Return (Some d)
  /\ cyberDateToEarthSeconds d = 478728792%float
  /\ earthSecondsToCyberDate 478728792%float
     = (mkDate (Some 99) (Some (-1)) (Some 517) (Some 1))%float
  /\ JS.floor (totalDays / CYCLE)%float = 517%float
  /\ (totalDays - 517 * CYCLE)%float = (-2.2737367544323206e-13)%float
  /\ earthSecondsToCyberDate 478728792%Q
     = (mkDate (Some 0) (Some 0) (Some 517) (Some 1))%Q
  /\ earthSecondsToCyberDate 315575.99999999994%float
     = (mkDate (Some (-1)) (Some 10) (Some 0) (Some 0))%float
  /\ justBelow = 3.6524999999999994%float
  /\ (justBelow <? CYCLE)%float = true
  /\ (justBelow / (CYCLE / 10))%float = 10%float
  /\ (forall s : Q, (0 <= s)%Q ->
      exists k h c y : Z,
        earthSecondsToCyberDate s
        = mkDate (Some (inject_Z k)) (Some (inject_Z h)) (Some (inject_Z c))
                 (Some (inject_Z y))
        /\ (0 <= k <= 99)%Z /\ (0 <= h <= 9)%Z /\ (0 <= c <= 999)%Z).
Proof.
  cbv zeta. repeat (split; [evaluate|]).
  intros s S. destruct (exact_fromSeconds s S) as (k & h & c & y & E & K & H & C & _).
  exists k, h, c, y. repeat split; try exact E; lia.
Qed.

Lemma fromSeconds_out_of_range_witness :
  exists k h c y : Z,
    earthSecondsToCyberDate 478728792%Q
    = mkDate (Some (inject_Z k)) (Some (inject_Z h)) (Some (inject_Z c))
             (Some (inject_Z y))
    /\ (0 <= k <= 99)%Z /\ (0 <= h <= 9)%Z /\ (0 <= c <= 999)%Z.
Proof.
  apply fromSeconds_out_of_range. unfold Qle. simpl. lia.
Defined.

(** * The formatter *)

(** C6, as the code has it.  The text of a date is decided by its non-null
    fields, in this order: all four give the full shape; chord, cycle and
    solarCycle without klik give the three-number shape; otherwise klik and
    chord give ["klik arc chord"], whatever cycle and solarCycle are;
    otherwise a cycle gives ["cycle"], whatever the other fields are;
    otherwise, that is without a cycle and without klik or chord, the text
    is ["Invalid date"].  The function is total. *)
Theorem format_by_non_null_fields :
  ((forall k h c s,
      formatCyberDate (mkDate (Some k) (Some h) (Some c) (Some s))
      = JS.toString k ++ " arc " ++ JS.toString h ++ " " ++ JS.toString c
        ++ " arc " ++ JS.toString s)
   /\ (forall h c s,
      formatCyberDate (mkDate None (Some h) (Some c) (Some s))
      = JS.toString h ++ " " ++ JS.toString c ++ " arc " ++ JS.toString s)
   /\ (forall k h s,
      formatCyberDate (mkDate (Some k) (Some h) None s)
      = JS.toString k ++ " arc " ++ JS.toString h)
   /\ (forall k h c,
      formatCyberDate (mkDate (Some k) (Some h) (Some c) None)
      = JS.toString k ++ " arc " ++ JS.toString h)
   /\ (forall k c s,
      formatCyberDate (mkDate k None (Some c) s) = JS.toString c)
   /\ (forall h c,
      formatCyberDate (mkDate None (Some h) (Some c) None) = JS.toString c)
   /\ (forall k s, formatCyberDate (mkDate k None None s) = "Invalid date")
   /\ (forall h s, formatCyberDate (mkDate None h None s) = "Invalid date"))
  /\ formatCyberDate (mkDate (Some 54) (Some 4) (Some 593) (Some 129))%float
     = "54 arc 4 593 arc 129"
  /\ formatCyberDate (mkDate None (Some 4) (Some 593) (Some 129))%float
     = "4 593 arc 129"
  /\ formatCyberDate (mkDate (Some 5) (Some 3) None None)%float = "5 arc 3"
  /\ formatCyberDate (mkDate None None (Some 7) None)%float = "7"
  /\ formatCyberDate (mkDate None None None (Some 9))%float = "Invalid date".
Proof.
  split; [|evaluate].
  repeat match goal with |- _ /\ _ => split end; intros;
    repeat match goal with x : option float |- _ => destruct x end;
    reflexivity.
Qed.

(** C6, the counterexample.  With klik, chord and cycle set and solarCycle
    null the text is ["1 arc 2"], where the specification has
    ["Invalid date"]; with only cycle and solarCycle set it is the cycle. *)
Lemma format_differs_from_specified :
  let d := (mkDate (Some 1) (Some 2) (Some 3) None)%float in
  let e := (mkDate None None (Some 7) (Some 9))%float in
  formatCyberDate d = "1 arc 2" /\ formatAsSpecified d = "Invalid date"
  /\ formatCyberDate e = "7" /\ formatAsSpecified e = "Invalid date"
  /\ formatCyberDate d <> formatAsSpecified d.
Proof.
  cbv zeta. repeat (split; [evaluate|]).
  intros E. vm_compute in E. discriminate E.
Qed.

(** * Differences *)

(** C8, as the code has it.  The seconds of a difference are the absolute
    value of the difference of the two dates' seconds, its date is those
    seconds converted back, and the two dates can be swapped.  A date whose
    seconds are finite differs from itself by 0 seconds. *)
Theorem difference_contract :
  (forall d1 d2 : date,
     diffSeconds (differenceBetweenDates d1 d2)
     = abs (cyberDateToEarthSeconds d1 - cyberDateToEarthSeconds d2)%float
     /\ diffCyber (differenceBetweenDates d1 d2)
        = earthSecondsToCyberDate
            (abs (cyberDateToEarthSeconds d1 - cyberDateToEarthSeconds d2)%float)
     /\ differenceBetweenDates d1 d2 = differenceBetweenDates d2 d1)
  /\ (forall d : date,
     JS.isFinite (cyberDateToEarthSeconds d) = true ->
     differenceBetweenDates d d
     = {| diffSeconds := 0%float; diffCyber := earthSecondsToCyberDate 0%float |}).
Proof.
  split.
  - intros d1 d2. unfold differenceBetweenDates. cbv zeta.
    cbn [diffSeconds diffCyber]. primitive.
    rewrite (abs_sub_swap (cyberDateToEarthSeconds d2) (cyberDateToEarthSeconds d1)).
    repeat split.
  - intros d F. unfold differenceBetweenDates. cbv zeta. primitive.
    rewrite (abs_sub_diag _ F). reflexivity.
Qed.

Lemma difference_contract_witness :
  differenceBetweenDates (mkDate (Some 5) (Some 3) None None)%float
                         (mkDate (Some 5) (Some 3) None None)%float
  = {| diffSeconds := 0%float; diffCyber := earthSecondsToCyberDate 0%float |}.
Proof.
  apply (proj2 difference_contract (mkDate (Some 5) (Some 3) None None)%float).
  vm_compute. reflexivity.
Defined.

(** C8, the counterexample.  The text ["1e308"] parses to the date with
    cycle 1e308, a valid date whose seconds overflow to Infinity: its
    difference from itself is NaN seconds, not 0. *)
Lemma difference_of_equal_dates_not_zero :
  let d := mkDate None None (Some 1e308%float) None in
  parseCybertronianDate "1e308" = Return (Some d)
  /\ valid d = true
  /\ cyberDateToEarthSeconds d = infinity
  /\ diffSeconds (differenceBetweenDates d d) = nan
  /\ PrimFloat.eqb (diffSeconds (differenceBetweenDates d d)) 0 = false.
Proof. evaluate. Qed.

(** * Adding and subtracting Earth time *)

(** The two handlers parse the date, run the steps and show the new date or
    the error. *)
Lemma forms_run_the_steps (cyberInput earthInput : string) (d : date) :
  parsedDate cyberInput = Return d ->
  addForm cyberInput earthInput
  = shown ("New Cybertronian Date:" ++ newline) (addEarthTime d earthInput)
  /\ subtractForm cyberInput earthInput
     = shown ("Cybertronian Date after subtracting time:" ++ newline)
             (subtractEarthTime d earthInput).
Proof. intros E. unfold addForm, subtractForm. rewrite E. split; reflexivity. Qed.

(** C9.  Adding fails exactly when the duration is not above 0 and
    otherwise returns the date of the sum of the seconds; subtracting fails
    exactly when the duration is not above 0 or the difference of the
    seconds is below 0, and otherwise returns the date of that difference,
    so no date is ever returned for seconds below 0.  Subtracting 200
    seconds from the date of 100 seconds fails as a date before the start,
    and the form shows that error. *)
Theorem add_subtract_contract :
  (forall (d : date) (t : string),
     let p := parseHumanTime t in
     let start := cyberDateToEarthSeconds d in
     thrown (addEarthTime d t) = (p <=? 0)%float
     /\ ((p <=? 0)%float = false ->
         addEarthTime d t = Return (earthSecondsToCyberDate (start + p)%float))
     /\ thrown (subtractEarthTime d t) = ((p <=? 0) || (start - p <? 0))%float
     /\ ((p <=? 0)%float = false -> (start - p <? 0)%float = true ->
         subtractEarthTime d t
         = Throw "Resulting date is before the start of Cybertronian time.")
     /\ (forall r, subtractEarthTime d t = Return r ->
         (start - p <? 0)%float = false
         /\ r = earthSecondsToCyberDate (start - p)%float))
  /\ subtractEarthTime (earthSecondsToCyberDate 100%float) "200 seconds"
     = Throw "Resulting date is before the start of Cybertronian time."
  /\ subtractForm "0 arc 0 0 arc 0" "200 seconds"
     = "Error: Resulting date is before the start of Cybertronian time."
  /\ addForm "5 arc 3" "no time"
     = "Error: Invalid or zero Earth time to add.".
Proof.
  split; [|evaluate].
  intros d t p start. unfold addEarthTime, subtractEarthTime.
  fold p. fold start.
  destruct (p <=? 0)%float; cbn [thrown orb];
    [|destruct (start - p <? 0)%float; cbn [thrown]];
    repeat match goal with |- _ /\ _ => split end;
    intros; try discriminate; try reflexivity;
    match goal with E : Return _ = Return _ |- _ => injection E as <- end;
    split; reflexivity.
Qed.

Lemma add_subtract_contract_witness :
  addEarthTime (mkDate (Some 5) (Some 3) None None)%float "2 years, 3 weeks"
  = Return (earthSecondsToCyberDate
              (cyberDateToEarthSeconds (mkDate (Some 5) (Some 3) None None)%float
               + parseHumanTime "2 years, 3 weeks")%float).
Proof.
  apply (proj1 (proj2 (proj1 add_subtract_contract
                         (mkDate (Some 5) (Some 3) None None)%float
                         "2 years, 3 weeks"))).
  vm_compute. reflexivity.
Defined.

(** * The duration pattern *)

Lemma map_nil_app (l : list (JS.captures * string)) :
  map (fun '(c2, s2) => (([] ++ c2)%list, s2)) l = l.
Proof.
  induction l as [|[c s] l IH]; [reflexivity|].
  cbn [map]. rewrite IH. reflexivity.
Qed.

Lemma flat_map_nil {A B : Type} (f : A -> list B) (l : list A) :
  Forall (fun x => f x = []) l -> flat_map f l = [].
Proof. induction 1 as [|x l E _ IH]; simpl; [reflexivity|now rewrite E, IH]. Qed.

(** The greedy star tries the longest run first; every other try stops
    before a character of the class. *)
Lemma star_shape (p : ascii -> bool) (s : string) :
  exists l, JS.star p s = dropWhile p s :: l /\ Forall (begins p) l.
Proof.
  induction s as [|c s [l [E F]]]; simpl.
  - exists []. split; [reflexivity|constructor].
  - destruct (p c) eqn:P.
    + exists (l ++ [String c s])%list. rewrite E. split; [reflexivity|].
      apply Forall_app. split; [exact F|]. constructor; [exact P|constructor].
    + exists []. split; [reflexivity|constructor].
Qed.

(** No unit word begins with a digit or with white space. *)
Lemma units_blocked (c : ascii) (t : string) :
  JS.isDigit c || JS.isWhiteSpace c = true ->
  JS.matches unitsPattern (String c t) = [].
Proof.
  destruct c as [[] [] [] [] [] [] [] []]; intros H;
    first [discriminate H | reflexivity].
Qed.

Lemma digit_not_space (c : ascii) : JS.isDigit c = true -> JS.isWhiteSpace c = false.
Proof. destruct c as [[] [] [] [] [] [] [] []]; intros H; first [discriminate H | reflexivity]. Qed.

Lemma matches_word (w : string) (last : JS.regex) (s : string) :
  JS.matches (JS.word JS.liti w last) s =
  match afterWord w s with
  | Some r => JS.matches last r
  | None => []
  end.
Proof.
  revert s; induction w as [|c w IH]; intros s; [reflexivity|].
  destruct s as [|d s]; [reflexivity|].
  cbn [JS.word JS.matches JS.liti afterWord].
  change (Ascii.eqb (JS.lowerChar d) c && (JS.code d <? 128)%nat) with (sameLetter c d).
  destruct (sameLetter c d); [|reflexivity].
  cbn [flat_map]. rewrite app_nil_r, map_nil_app. apply IH.
Qed.

(** A unit word matches with its plural first. *)
Lemma unitWord_head (w s : string) :
  match afterWord w s with
  | Some r => exists tl, JS.matches (unitWord w) s = ([], afterPlural r) :: tl
  | None => JS.matches (unitWord w) s = []
  end.
Proof.
  unfold unitWord. rewrite matches_word.
  destruct (afterWord w s) as [r|]; [|reflexivity].
  destruct r as [|d r]; [eexists; reflexivity|].
  cbn [JS.matches JS.liti afterPlural].
  change (Ascii.eqb (JS.lowerChar d) "s" && (JS.code d <? 128)%nat)
    with (sameLetter "s" d).
  destruct (sameLetter "s" d); eexists; reflexivity.
Qed.

Lemma matches_alt_head (r1 r2 : JS.regex) (s : string) :
  JS.groups r1 = 0%nat -> JS.groups r2 = 0%nat ->
  (forall x tl, JS.matches r1 s = ([], x) :: tl ->
     exists tl', JS.matches (JS.Alt r1 r2) s = ([], x) :: tl')
  /\ (JS.matches r1 s = [] -> JS.matches (JS.Alt r1 r2) s = JS.matches r2 s).
Proof.
  intros G1 G2. cbn [JS.matches]. rewrite G1, G2. cbn [JS.undefined repeat].
  split.
  - intros x tl E. rewrite E. eexists. reflexivity.
  - intros E. rewrite E. cbn [map app]. apply map_nil_app.
Qed.

(** The alternation reports the first unit, in the order written, whose
    word is there. *)
Lemma units_head (s : string) :
  match unitAt s with
  | Some (u, rest) => exists tl, JS.matches unitsPattern s = ([], rest) :: tl
  | None => JS.matches unitsPattern s = []
  end.
Proof.
  unfold unitAt, unitsPattern. cbn [unitAmong unitName].
  repeat
    match goal with
    | |- context [JS.matches (JS.Alt (unitWord ?w) ?r2) s] =>
        let A1 := fresh in
        let A2 := fresh in
        let W := fresh in
        destruct (matches_alt_head (unitWord w) r2 s eq_refl eq_refl) as [A1 A2];
        pose proof (unitWord_head w s) as W;
        destruct (afterWord w s);
        [destruct W as [? W]; exact (A1 _ _ W) | rewrite (A2 W); clear A1 A2 W]
    end.
  pose proof (unitWord_head "second" s) as W.
  destruct (afterWord "second" s); exact W.
Qed.

Lemma matches_seq (r1 r2 : JS.regex) (s : string) :
  JS.matches (JS.Seq r1 r2) s =
  flat_map (fun '(c1, s1) =>
              map (fun '(c2, s2) => ((c1 ++ c2)%list, s2)) (JS.matches r2 s1))
           (JS.matches r1 s).
Proof. reflexivity. Qed.

Lemma matches_star (p : ascii -> bool) (s : string) :
  JS.matches (JS.Star p) s = map (fun s' => ([], s')) (JS.star p s).
Proof. reflexivity. Qed.

Lemma matches_group (r : JS.regex) (s : string) :
  JS.matches (JS.Group r) s =
  map (fun '(c, s') =>
         (Some (JS.take (String.length s - String.length s') s) :: c, s'))
      (JS.matches r s).
Proof. reflexivity. Qed.

Lemma group_units_blocked (t : string) :
  begins JS.isWhiteSpace t -> JS.matches (JS.Group unitsPattern) t = [].
Proof.
  destruct t as [|d t]; [contradiction|]. cbn [begins]. intros W.
  rewrite matches_group, units_blocked; [reflexivity|].
  rewrite W. apply orb_true_r.
Qed.

(** After the digits: the white space is taken whole, then the unit word. *)
Lemma matches_rest (r : string) :
  JS.matches (JS.Seq (JS.Star JS.isWhiteSpace) (JS.Group unitsPattern)) r =
  let r' := dropWhile JS.isWhiteSpace r in
  map (fun '(c, s2) =>
         (Some (JS.take (String.length r' - String.length s2) r') :: c, s2))
      (JS.matches unitsPattern r').
Proof.
  rewrite matches_seq, matches_star. cbv zeta.
  destruct (star_shape JS.isWhiteSpace r) as [l [E F]]. rewrite E.
  cbn [map flat_map]. rewrite flat_map_nil.
  - rewrite app_nil_r, map_nil_app. apply matches_group.
  - apply Forall_map. revert F. apply Forall_impl. intros t B.
    rewrite (group_units_blocked t B). reflexivity.
Qed.

Lemma rest_blocked (t : string) :
  begins JS.isDigit t ->
  JS.matches (JS.Seq (JS.Star JS.isWhiteSpace) (JS.Group unitsPattern)) t = [].
Proof.
  destruct t as [|d t]; [contradiction|]. cbn [begins]. intros D.
  rewrite matches_rest. cbv zeta. cbn [dropWhile].
  rewrite (digit_not_space d D).
  rewrite units_blocked; [reflexivity|]. rewrite D. reflexivity.
Qed.

(** The whole pattern at a digit: the digits are taken whole. *)
Lemma matches_duration (c : ascii) (s' : string) :
  JS.isDigit c = true ->
  let s := String c s' in
  let r := dropWhile JS.isDigit s' in
  let r' := dropWhile JS.isWhiteSpace r in
  JS.matches durationPattern s =
  map (fun '(cu, s2) =>
         (Some (JS.take (String.length s - String.length r) s)
          :: Some (JS.take (String.length r' - String.length s2) r') :: cu, s2))
      (JS.matches unitsPattern r').
Proof.
  intros D s r r'. unfold durationPattern, JS.Plus.
  rewrite matches_seq, matches_group, matches_seq.
  change (JS.matches (JS.Chr JS.isDigit) s)
    with (if JS.isDigit c then [(@nil (option string), s')] else []).
  rewrite D. cbn [flat_map]. rewrite app_nil_r, map_nil_app, matches_star.
  destruct (star_shape JS.isDigit s') as [l [E F]]. rewrite E. fold r.
  cbn [map flat_map]. rewrite flat_map_nil.
  - rewrite app_nil_r, matches_rest. cbv zeta. fold r'.
    rewrite map_map. apply map_ext. intros [cu s2]. reflexivity.
  - rewrite !Forall_map. revert F. apply Forall_impl. intros t B.
    rewrite (rest_blocked t B). reflexivity.
Qed.

(** ** The word of a match and its seconds *)

Lemma length_app (p r : string) :
  String.length (p ++ r) = (String.length p + String.length r)%nat.
Proof. induction p as [|c p IH]; simpl; [reflexivity|now rewrite IH]. Qed.

Lemma app_assoc_string (p q r : string) : ((p ++ q) ++ r = p ++ (q ++ r))%string.
Proof. induction p as [|c p IH]; simpl; [reflexivity|now rewrite IH]. Qed.

Lemma take_app (p r : string) :
  JS.take (String.length (p ++ r) - String.length r) (p ++ r) = p.
Proof.
  rewrite length_app, Nat.add_sub.
  induction p as [|c p IH]; simpl; [now destruct r|now rewrite IH].
Qed.

Lemma toLowerCase_app (p q : string) :
  JS.toLowerCase (p ++ q) = (JS.toLowerCase p ++ JS.toLowerCase q)%string.
Proof. induction p as [|c p IH]; simpl; [reflexivity|now rewrite IH]. Qed.

Lemma sameLetter_lower (c d : ascii) : sameLetter c d = true -> JS.lowerChar d = c.
Proof.
  unfold sameLetter. intros H. apply andb_prop in H. destruct H as [H _].
  now apply Ascii.eqb_eq.
Qed.

(** The word found is the unit's name, whatever its case. *)
Lemma afterWord_prefix (w s r : string) :
  afterWord w s = Some r -> exists p, s = (p ++ r)%string /\ JS.toLowerCase p = w.
Proof.
  revert s; induction w as [|c w IH]; intros s E.
  - exists EmptyString. injection E as <-. split; reflexivity.
  - destruct s as [|d s]; [discriminate E|]. cbn [afterWord] in E.
    destruct (sameLetter c d) eqn:L; [|discriminate E].
    destruct (IH s E) as [p [-> <-]].
    exists (String d p). split; [reflexivity|].
    simpl. now rewrite (sameLetter_lower c d L).
Qed.

Lemma unit_seconds (u : timeUnit) :
  lookup units (unitName u) = Some (unitSeconds u)
  /\ lookup units (unitName u ++ "s") = Some (unitSeconds u)
  /\ truthy (unitSeconds u) = true.
Proof. destruct u; repeat split; vm_compute; reflexivity. Qed.

Lemma unitAmong_word (us : list timeUnit) (s : string) (u : timeUnit) (rest : string) :
  unitAmong us s = Some (u, rest) ->
  lookup units (JS.toLowerCase (JS.take (String.length s - String.length rest) s))
  = Some (unitSeconds u).
Proof.
  induction us as [|u0 us IH]; [discriminate|]. cbn [unitAmong].
  destruct (afterWord (unitName u0) s) as [r|] eqn:A; [|exact IH].
  intros E. injection E as <- <-.
  destruct (afterWord_prefix _ _ _ A) as [p [-> L]].
  destruct (unit_seconds u0) as (S1 & S2 & _).
  assert (P : lookup units (JS.toLowerCase (JS.take (String.length (p ++ r) - String.length r) (p ++ r)))
              = Some (unitSeconds u0))
    by (now rewrite take_app, L).
  destruct r as [|d r]; [exact P|]. cbn [afterPlural].
  destruct (sameLetter "s" d) eqn:D; [|exact P].
  change (String d r) with (String d EmptyString ++ r)%string.
  rewrite <- app_assoc_string, take_app, toLowerCase_app, L.
  simpl JS.toLowerCase. rewrite (sameLetter_lower _ _ D). exact S2.
Qed.

Lemma matches_without_digit (s : string) :
  match s with String c _ => JS.isDigit c = false | EmptyString => True end ->
  JS.matches durationPattern s = [].
Proof.
  intros H. unfold durationPattern, JS.Plus.
  rewrite matches_seq, matches_group, matches_seq.
  destruct s as [|c s]; [reflexivity|].
  change (JS.matches (JS.Chr JS.isDigit) (String c s))
    with (if JS.isDigit c then [(@nil (option string), s)] else []).
  rewrite H. reflexivity.
Qed.

(** What [exec] finds at a position is the duration there: its digits, a
    word that names its unit, and its length. *)
Lemma matchAt_duration (s : string) :
  match durationAt s with
  | Some (digits, u, n) =>
      exists w, JS.matchAt durationPattern s = Some ([Some digits; Some w], n)
                /\ lookup units (JS.toLowerCase w) = Some (unitSeconds u)
  | None => JS.matchAt durationPattern s = None
  end.
Proof.
  destruct s as [|c s']; [reflexivity|]. unfold durationAt, JS.matchAt.
  destruct (JS.isDigit c) eqn:D.
  - rewrite (matches_duration c s' D). cbv zeta. cbn [dropWhile]. rewrite D.
    set (r := dropWhile JS.isDigit s').
    set (r' := dropWhile JS.isWhiteSpace r).
    pose proof (units_head r') as U.
    destruct (unitAt r') as [[u rest]|] eqn:A.
    + destruct U as [tl ->]. cbn [map]. eexists. split; [reflexivity|].
      exact (unitAmong_word _ _ _ _ A).
    + rewrite U. reflexivity.
  - rewrite matches_without_digit; [reflexivity|exact D].
Qed.

Lemma dropWhile_length (p : ascii -> bool) (s : string) :
  (String.length (dropWhile p s) <= String.length s)%nat.
Proof.
  induction s as [|c s IH]; simpl; [lia|]. destruct (p c); simpl; lia.
Qed.

Lemma toLowerCase_length (s : string) :
  String.length (JS.toLowerCase s) = String.length s.
Proof. induction s as [|c s IH]; simpl; [reflexivity|now rewrite IH]. Qed.

Lemma unitAmong_length (us : list timeUnit) (s : string) (u : timeUnit) (rest : string) :
  unitAmong us s = Some (u, rest) -> (String.length rest < String.length s)%nat.
Proof.
  induction us as [|u0 us IH]; [discriminate|]. cbn [unitAmong].
  destruct (afterWord (unitName u0) s) as [r|] eqn:A; [|exact IH].
  intros E. injection E as <- <-.
  destruct (afterWord_prefix _ _ _ A) as [p [-> L]].
  rewrite length_app, <- (toLowerCase_length p), L.
  assert (String.length (afterPlural r) <= String.length r)%nat.
  { destruct r as [|d r]; simpl; [lia|]. destruct (sameLetter "s" d); simpl; lia. }
  destruct u0; simpl; lia.
Qed.

(** A duration takes at least one code unit, so the loop of [execAll]
    always moves on. *)
Lemma duration_not_empty (s digits : string) (u : timeUnit) (n : nat) :
  durationAt s = Some (digits, u, n) -> (0 < n)%nat.
Proof.
  destruct s as [|c s']; [discriminate|]. unfold durationAt.
  destruct (JS.isDigit c); [|discriminate].
  destruct (unitAt _) as [[u' rest]|] eqn:A; [|discriminate].
  intros E. injection E as _ _ <-.
  apply unitAmong_length in A.
  pose proof (dropWhile_length JS.isWhiteSpace (dropWhile JS.isDigit (String c s'))).
  pose proof (dropWhile_length JS.isDigit (String c s')).
  cbn [String.length] in *. destruct (String.length rest); lia.
Qed.

(** The loop over the matches adds what the durations of the text add. *)
Lemma execAll_durations (s : string) :
  forall (skip : nat) (total : float),
    fold_left addMatch (execAll durationPattern s skip) total
    = fold_left (fun total '(digits, u) =>
                   (total + JS.parseIntDigits digits * unitSeconds u)%float)
                (durationsFrom s skip) total.
Proof.
  induction s as [|c s IH]; intros skip total; [reflexivity|].
  cbn [execAll durationsFrom]. destruct skip; [|apply IH].
  pose proof (matchAt_duration (String c s)) as M.
  destruct (durationAt (String c s)) as [[[digits u] n]|].
  - destruct M as [w [-> L]]. destruct n; [apply IH|].
    cbn [fold_left]. rewrite IH. f_equal.
    unfold addMatch. rewrite L.
    destruct (unit_seconds u) as (_ & _ & T). now rewrite T.
  - rewrite M. apply IH.
Qed.

(** C7.  The duration of a text is the sum, from 0 and left to right, over
    the durations found in it, of the value times the seconds of the unit:
    1, 60, 3600, 86400, 604800 and 365.25 * 86400; a text without a
    duration gives 0, and ["2 years, 3 weeks"] gives
    2 * 365.25 * 86400 + 3 * 604800. *)
Theorem parseHumanTime_sums_durations :
  (forall text : string, parseHumanTime text = secondsOfDurations (durations text))
  /\ secondsOfDurations [] = 0%float
  /\ (unitSeconds Second = 1 /\ unitSeconds Minute = 60 /\ unitSeconds Hour = 3600
      /\ unitSeconds Day = 86400 /\ unitSeconds Week = 604800
      /\ unitSeconds Year = 365.25 * 86400 /\ unitSeconds Year = 31557600)%float
  /\ durations "2 years, 3 weeks" = [("2", Year); ("3", Week)]
  /\ parseHumanTime "2 years, 3 weeks" = (2 * 365.25 * 86400 + 3 * 604800)%float
  /\ parseHumanTime "2 years, 3 weeks" = 64929600%float
  /\ parseHumanTime "no duration here" = 0%float.
Proof.
  split; [|evaluate].
  intros text. apply execAll_durations.
Qed.


(** * Further properties of the parser *)

Lemma parse_tokens (input : string) :
  parseCybertronianDate input =
  if anyNaN input then Throw "Invalid number in date"
  else Return (assign (numbersOf input)).
Proof.
  rewrite parse_flattened, flattened_spec. unfold numbersOf, anyNaN.
  rewrite existsb_map. destruct (existsb _ _); reflexivity.
Qed.

Lemma numbersOf_length (input : string) :
  List.length (numbersOf input) = List.length (tokensOf input).
Proof. unfold numbersOf. apply length_map. Qed.

Lemma assign_none (numbers : list float) :
  numbers <> [] -> (assign numbers = None <-> (5 <= List.length numbers)%nat).
Proof.
  intros N. destruct numbers as [|a [|b [|c [|d [|e l]]]]]; cbn; split;
    try congruence; try lia; try discriminate.
Qed.

(** X1.  The parser throws, with the message "Invalid number in date",
    exactly when some token of the text is not a number, whatever the
    number of tokens; otherwise it returns what the count of the numbers
    assigns.  A text has at least one token, so the parser returns null
    exactly for five or more numbers, never for none. *)
Theorem parse_outcome (input : string) :
  tokensOf input <> []
  /\ (anyNaN input = true ->
      parseCybertronianDate input = Throw "Invalid number in date")
  /\ (anyNaN input = false ->
      parseCybertronianDate input = Return (assign (numbersOf input)))
  /\ (parseCybertronianDate input = Return None
      <-> anyNaN input = false /\ (5 <= List.length (tokensOf input))%nat).
Proof.
  pose proof (tokensOf_nonempty input) as N.
  assert (M : numbersOf input <> []).
  { intros E. apply N. apply length_zero_iff_nil.
    rewrite <- numbersOf_length, E. reflexivity. }
  rewrite parse_tokens. repeat match goal with |- _ /\ _ => split end.
  - exact N.
  - intros ->. reflexivity.
  - intros ->. reflexivity.
  - split.
    + destruct (anyNaN input); intros E; [discriminate E|]. split; [reflexivity|].
      rewrite <- numbersOf_length. apply (assign_none _ M). congruence.
    + intros [-> L]. f_equal. apply (assign_none _ M).
      now rewrite numbersOf_length.
Qed.

Lemma parse_outcome_witness :
  parseCybertronianDate "1 2 arc 3 4 5" = Return None
  /\ parseCybertronianDate "1 2 arc x 4 5" = Throw "Invalid number in date".
Proof.
  split.
  - apply (parse_outcome "1 2 arc 3 4 5"). split; [reflexivity|vm_compute; lia].
  - apply (parse_outcome "1 2 arc x 4 5"). reflexivity.
Defined.

Lemma assign_fields (numbers : list float) (d : date) :
  assign numbers = Some d -> fieldsOf d = numbers.
Proof.
  destruct numbers as [|a [|b [|c [|e [|f l]]]]]; cbn; try discriminate;
    intros E; injection E as <-; reflexivity.
Qed.

(** X2.  A date the parser returns holds the numbers of the text: its
    non-null fields, in the order klik, chord, cycle, solarCycle, are the
    numbers in the order written.  So it has one to four fields, none of
    them NaN, and it is one of four shapes: all four fields, all but the
    klik, klik and chord only, or the cycle only. *)
Theorem parsed_date_fields (input : string) (d : date) :
  parseCybertronianDate input = Return (Some d) ->
  fieldsOf d = numbersOf input
  /\ existsb JS.isNaN (fieldsOf d) = false
  /\ valid d = true
  /\ ((exists k h c s, d = mkDate (Some k) (Some h) (Some c) (Some s))
      \/ (exists h c s, d = mkDate None (Some h) (Some c) (Some s))
      \/ (exists k h, d = mkDate (Some k) (Some h) None None)
      \/ (exists c, d = mkDate None None (Some c) None)).
Proof.
  rewrite parse_tokens. destruct (anyNaN input) eqn:A; [discriminate|].
  intros E. injection E as E.
  pose proof (assign_fields _ _ E) as F. rewrite F.
  split; [reflexivity|]. split.
  { unfold numbersOf. rewrite existsb_map. exact A. }
  clear F. destruct (numbersOf input) as [|a [|b [|c [|e [|f l]]]]];
    cbn in E; try discriminate; injection E as <-; (split; [reflexivity|]).
  - right; right; right. now exists a.
  - right; right; left. now exists a, b.
  - right; left. now exists a, b, c.
  - left. now exists a, b, c, e.
Qed.

Lemma parsed_date_fields_witness :
  fieldsOf (mkDate None (Some 4) (Some 593) (Some 129))%float
  = numbersOf "4 593 arc 129".
Proof.
  apply (parsed_date_fields "4 593 arc 129"). vm_compute. reflexivity.
Defined.

Lemma lowerChar_space (c : ascii) :
  JS.isWhiteSpace (JS.lowerChar c) = JS.isWhiteSpace c.
Proof. destruct c as [[] [] [] [] [] [] [] []]; reflexivity. Qed.

Lemma trimStart_lower (s : string) :
  JS.trimStart (JS.toLowerCase s) = JS.toLowerCase (JS.trimStart s).
Proof.
  induction s as [|c s IH]; [reflexivity|]. cbn [JS.toLowerCase JS.trimStart].
  rewrite lowerChar_space. destruct (JS.isWhiteSpace c); [exact IH|reflexivity].
Qed.

Lemma trimEnd_lower (s : string) :
  JS.trimEnd (JS.toLowerCase s) = JS.toLowerCase (JS.trimEnd s).
Proof.
  induction s as [|c s IH]; [reflexivity|]. cbn [JS.toLowerCase JS.trimEnd].
  rewrite IH, lowerChar_space.
  destruct (JS.trimEnd s); [destruct (JS.isWhiteSpace c)|]; reflexivity.
Qed.

Lemma trim_lower (s : string) :
  JS.trim (JS.toLowerCase s) = JS.toLowerCase (JS.trim s).
Proof. unfold JS.trim. now rewrite trimStart_lower, trimEnd_lower. Qed.

Lemma trimEnd_blank (r : string) :
  every JS.isWhiteSpace r = true -> JS.trimEnd r = "".
Proof.
  induction r as [|c r IH]; [reflexivity|]. cbn [every JS.trimEnd].
  intros E. apply andb_prop in E as [C R]. now rewrite (IH R), C.
Qed.

Lemma trimEnd_margin (s r : string) :
  every JS.isWhiteSpace r = true -> JS.trimEnd (s ++ r) = JS.trimEnd s.
Proof.
  intros R. induction s as [|c s IH]; [now apply trimEnd_blank|].
  cbn [append JS.trimEnd]. now rewrite IH.
Qed.

Lemma trimStart_blank (l x : string) :
  every JS.isWhiteSpace l = true -> JS.trimStart (l ++ x) = JS.trimStart x.
Proof.
  induction l as [|c l IH]; [reflexivity|]. cbn [every append JS.trimStart].
  intros E. apply andb_prop in E as [C L]. now rewrite C, (IH L).
Qed.

Lemma trim_margin (l s r : string) :
  every JS.isWhiteSpace l = true -> every JS.isWhiteSpace r = true ->
  JS.trim (l ++ s ++ r) = JS.trim s.
Proof.
  intros L R. unfold JS.trim. rewrite (trimStart_blank _ _ L). clear L.
  induction s as [|c s IH].
  - cbn [append]. rewrite <- (trimStart_blank r "" R).
    replace (r ++ "") with r; [reflexivity|].
    clear R. induction r as [|d r IH]; [reflexivity|]. cbn [append]. now rewrite <- IH.
  - cbn [append JS.trimStart]. destruct (JS.isWhiteSpace c); [exact IH|].
    apply (trimEnd_margin (String c s) r R).
Qed.

(** X3.  The parser reads a text up to the case of its letters and the
    white space around it: two texts that are equal once in lower case
    parse alike, and so does a text with white space put before or after
    it. *)
Theorem parse_ignores_case_and_margin (a b l r : string) :
  every JS.isWhiteSpace l = true -> every JS.isWhiteSpace r = true ->
  JS.toLowerCase a = JS.toLowerCase b ->
  parseCybertronianDate (l ++ a ++ r) = parseCybertronianDate b.
Proof.
  intros L R E. unfold parseCybertronianDate.
  rewrite (trim_margin _ _ _ L R), <- !trim_lower, E. reflexivity.
Qed.

Lemma parse_ignores_case_and_margin_witness :
  parseCybertronianDate ("  " ++ "54 ARC 4 593 Arc 129" ++ " ")
  = parseCybertronianDate "54 arc 4 593 arc 129".
Proof.
  apply (parse_ignores_case_and_margin "54 ARC 4 593 Arc 129" "54 arc 4 593 arc 129");
    reflexivity.
Defined.

(** * Further properties of the texts shown *)

Lemma append_empty (s : string) : s ++ "" = s.
Proof. induction s as [|c s IH]; [reflexivity|]. cbn [append]. now rewrite IH. Qed.

Lemma headIs_app (c : ascii) (a b : string) :
  headIs c (a ++ b) = match a with EmptyString => headIs c b | _ => headIs c a end.
Proof. destruct a; reflexivity. Qed.

Lemma headIs_take (c : ascii) (n : nat) (d : string) :
  headIs c d = false -> headIs c (JS.take n d) = false.
Proof. destruct n, d; cbn; auto. Qed.

Lemma digitString_head (z : Z) : headIs "I" (JS.digitString z) = false.
Proof.
  unfold JS.digitString, NilZero.string_of_uint.
  destruct (N.to_uint (Z.to_N z)); reflexivity.
Qed.

Lemma zeros_head (n : Z) : headIs "I" (JS.zeros n) = false.
Proof.
  unfold JS.zeros. destruct (Z.to_nat n) as [|m]; [reflexivity|].
  cbn [repeat String.concat]. destruct (repeat "0" m); reflexivity.
Qed.

Lemma exponentString_head (e : Z) : headIs "I" (JS.exponentString e) = false.
Proof. unfold JS.exponentString. destruct (0 <=? e)%Z; reflexivity. Qed.

Lemma layout_head (d : string) (k n : Z) :
  headIs "I" d = false -> headIs "I" (JS.layout d k n) = false.
Proof.
  intros D. unfold JS.layout.
  repeat match goal with |- context [if ?b then _ else _] => destruct b end;
    rewrite ?headIs_app.
  - destruct d; [apply zeros_head|exact D].
  - pose proof (headIs_take "I" (Z.to_nat n) d D). destruct (JS.take _ d); [reflexivity|assumption].
  - reflexivity.
  - destruct d; [|exact D]. apply exponentString_head.
  - pose proof (headIs_take "I" 1 d D). destruct (JS.take _ d); [reflexivity|assumption].
Qed.

(** The text of a Number is ["Infinity"] or does not begin with [I]. *)
Lemma toString_head (x : float) :
  JS.toString x = "Infinity" \/ headIs "I" (JS.toString x) = false.
Proof.
  unfold JS.toString.
  destruct (is_nan x); [right; reflexivity|]. destruct (is_zero x); [right; reflexivity|].
  assert (P : forall y, JS.positiveToString y = "Infinity"
                        \/ headIs "I" (JS.positiveToString y) = false).
  { intros y. unfold JS.positiveToString. destruct (JS.toQ y) as [v|]; [|now left].
    destruct (JS.shortest _ _ _ _ _) as [[s n] k]. right.
    apply layout_head, digitString_head. }
  destruct (PrimFloat.ltb x PrimFloat.zero); [right; reflexivity|apply P].
Qed.

Lemma toString_not_invalid (x : float) (rest : string) :
  rest = "" \/ headIs " " rest = true ->
  JS.toString x ++ rest <> "Invalid date".
Proof.
  intros R. destruct (toString_head x) as [-> | H].
  - destruct R as [-> | R]; [discriminate|]. destruct rest; discriminate.
  - destruct (JS.toString x) as [|c t].
    + cbn [append]. destruct R as [-> | R]; [discriminate|].
      intros E. rewrite E in R. discriminate R.
    + cbn [append]. intros E. injection E as E _. rewrite E in H. discriminate H.
Qed.

Lemma parsed_numbers (input : string) (d : date) :
  parseCybertronianDate input = Return (Some d) ->
  anyNaN input = false /\ assign (numbersOf input) = Some d.
Proof.
  rewrite parse_tokens. destruct (anyNaN input); [discriminate|].
  intros E. injection E as E. now split.
Qed.

(** X4.  Formatting a date the parser returned writes the numbers of the
    text back in the order they were written: four as [a arc b c arc e],
    three as [a b arc c], two as [a arc b], one alone; the result is never
    ["Invalid date"]. *)
Theorem format_of_parsed (input : string) (d : date) :
  parseCybertronianDate input = Return (Some d) ->
  formatCyberDate d <> "Invalid date"
  /\ (forall a b c e, numbersOf input = [a; b; c; e] ->
      formatCyberDate d
      = JS.toString a ++ " arc " ++ JS.toString b ++ " " ++ JS.toString c
        ++ " arc " ++ JS.toString e)
  /\ (forall a b c, numbersOf input = [a; b; c] ->
      formatCyberDate d = JS.toString a ++ " " ++ JS.toString b ++ " arc " ++ JS.toString c)
  /\ (forall a b, numbersOf input = [a; b] ->
      formatCyberDate d = JS.toString a ++ " arc " ++ JS.toString b)
  /\ (forall a, numbersOf input = [a] -> formatCyberDate d = JS.toString a).
Proof.
  intros P. apply parsed_numbers in P as [_ E].
  destruct (numbersOf input) as [|a [|b [|c [|e [|f l]]]]];
    cbn in E; try discriminate; injection E as <-; cbn;
    (split; [|repeat match goal with |- _ /\ _ => split end;
              intros; try discriminate;
              match goal with E : _ = _ |- _ => injection E; intros; subst end;
              reflexivity]).
  - rewrite <- (append_empty (JS.toString a)). apply toString_not_invalid. now left.
  - apply toString_not_invalid. now right.
  - apply toString_not_invalid. now right.
  - apply toString_not_invalid. now right.
Qed.

Lemma format_of_parsed_witness :
  formatCyberDate (mkDate (Some 54) (Some 4) (Some 593) (Some 129))%float
  <> "Invalid date".
Proof.
  apply (format_of_parsed "54 arc 4 593 arc 129"). vm_compute. reflexivity.
Defined.

(** * Further properties of the forms *)

Lemma parsedDate_cases (input : string) :
  parsedDate input =
  if anyNaN input then Throw "Invalid number in date"
  else match assign (numbersOf input) with
       | Some d => Return d
       | None => Throw "Invalid cybertronian date format."
       end.
Proof.
  unfold parsedDate. rewrite parse_tokens. destruct (anyNaN input); reflexivity.
Qed.

Lemma assign_too_many (input : string) :
  (5 <= List.length (tokensOf input))%nat -> assign (numbersOf input) = None.
Proof.
  intros L. rewrite <- numbersOf_length in L.
  destruct (numbersOf input) as [|a [|b [|c [|e [|f l]]]]]; cbn in L; try lia.
  reflexivity.
Qed.

Lemma format_of_new_date (seconds : float) :
  exists k h c s : float,
    earthSecondsToCyberDate seconds = mkDate (Some k) (Some h) (Some c) (Some s)
    /\ formatCyberDate (earthSecondsToCyberDate seconds)
       = JS.toString k ++ " arc " ++ JS.toString h ++ " " ++ JS.toString c
         ++ " arc " ++ JS.toString s.
Proof.
  destruct (fromSeconds_populated seconds) as (k & h & c & s & E).
  exists k, h, c, s. split; [exact E|]. rewrite E. reflexivity.
Qed.

(** X5.  What the add and the subtract form show, case by case, the first
    case that applies deciding: a token that is not a number gives
    "Error: Invalid number in date"; five or more numbers give
    "Error: Invalid cybertronian date format."; a duration that is not above
    zero gives "Error: Invalid or zero Earth time to add." (or "to
    subtract."); a subtraction below zero gives "Error: Resulting date is
    before the start of Cybertronian time."; otherwise the heading is
    followed by the new date in the full shape [k arc h c arc s], where the
    four numbers are the fields of the date of the new seconds. *)
Theorem add_subtract_forms (cyberInput earthInput : string) :
  let p := parseHumanTime earthInput in
  (anyNaN cyberInput = true ->
     addForm cyberInput earthInput = "Error: Invalid number in date"
     /\ subtractForm cyberInput earthInput = "Error: Invalid number in date")
  /\ (anyNaN cyberInput = false -> (5 <= List.length (tokensOf cyberInput))%nat ->
     addForm cyberInput earthInput = "Error: Invalid cybertronian date format."
     /\ subtractForm cyberInput earthInput = "Error: Invalid cybertronian date format.")
  /\ (forall d : date, parseCybertronianDate cyberInput = Return (Some d) ->
      let start := cyberDateToEarthSeconds d in
      ((p <=? 0)%float = true ->
         addForm cyberInput earthInput = "Error: Invalid or zero Earth time to add."
         /\ subtractForm cyberInput earthInput
            = "Error: Invalid or zero Earth time to subtract.")
      /\ ((p <=? 0)%float = false ->
          exists k h c s : float,
            earthSecondsToCyberDate (start + p)%float
            = mkDate (Some k) (Some h) (Some c) (Some s)
            /\ addForm cyberInput earthInput
               = "New Cybertronian Date:" ++ newline
                 ++ JS.toString k ++ " arc " ++ JS.toString h ++ " "
                 ++ JS.toString c ++ " arc " ++ JS.toString s)
      /\ ((p <=? 0)%float = false -> (start - p <? 0)%float = true ->
          subtractForm cyberInput earthInput
          = "Error: Resulting date is before the start of Cybertronian time.")
      /\ ((p <=? 0)%float = false -> (start - p <? 0)%float = false ->
          exists k h c s : float,
            earthSecondsToCyberDate (start - p)%float
            = mkDate (Some k) (Some h) (Some c) (Some s)
            /\ subtractForm cyberInput earthInput
               = "Cybertronian Date after subtracting time:" ++ newline
                 ++ JS.toString k ++ " arc " ++ JS.toString h ++ " "
                 ++ JS.toString c ++ " arc " ++ JS.toString s)).
Proof.
  intros p. unfold addForm, subtractForm. rewrite parsedDate_cases.
  split; [intros ->; split; reflexivity|].
  split; [intros -> L; rewrite (assign_too_many _ L); split; reflexivity|].
  intros d P. apply parsed_numbers in P as [-> ->].
  cbn [bind]. unfold addEarthTime, subtractEarthTime. cbv zeta. fold p.
  set (start := cyberDateToEarthSeconds d).
  repeat match goal with |- _ /\ _ => split end.
  - intros ->. split; reflexivity.
  - intros ->. destruct (format_of_new_date (start + p)%float) as (k & h & c & s & E & F).
    exists k, h, c, s. split; [exact E|]. cbn [shown]. rewrite F.
    now rewrite app_assoc_string.
  - intros -> ->. reflexivity.
  - intros -> ->. destruct (format_of_new_date (start - p)%float) as (k & h & c & s & E & F).
    exists k, h, c, s. split; [exact E|]. cbn [shown]. rewrite F.
    now rewrite app_assoc_string.
Qed.

Lemma add_subtract_forms_witness :
  addForm "1 2 3 4 5" "1 day" = "Error: Invalid cybertronian date format."
  /\ subtractForm "1 2 3 4 5" "1 day" = "Error: Invalid cybertronian date format.".
Proof.
  apply (add_subtract_forms "1 2 3 4 5" "1 day"); [reflexivity|vm_compute; lia].
Defined.

Lemma explainDate_empty (almostEqual : string) (d : date) :
  explainDate almostEqual d = "" <-> valid d = false.
Proof.
  destruct d as [[k|] [h|] [c|] [s|]]; unfold explainDate, valid, push;
    cbn [klik chord cycle solarCycle app String.concat append];
    split; intros E; try discriminate E; reflexivity.
Qed.

Lemma assign_valid (numbers : list float) (d : date) :
  assign numbers = Some d -> valid d = true.
Proof.
  destruct numbers as [|a [|b [|c [|e [|f l]]]]]; cbn; try discriminate;
    intros E; injection E as <-; reflexivity.
Qed.

(** X6.  The explanation of a date is empty exactly when the date has no
    field.  The form never shows an empty text: it shows an error, or the
    explanation of a parsed date, which has a field. *)
Theorem explanation_never_empty (almostEqual : string) :
  (forall d : date, explainDate almostEqual d = "" <-> valid d = false)
  /\ (forall input : string, explainForm almostEqual input <> "").
Proof.
  split; [apply explainDate_empty|].
  intros input. unfold explainForm. rewrite parsedDate_cases.
  destruct (anyNaN input); [discriminate|].
  destruct (assign (numbersOf input)) as [d|] eqn:A; [|discriminate].
  cbn [bind display]. intros E. apply explainDate_empty in E.
  rewrite (assign_valid _ _ A) in E. discriminate E.
Qed.

(** X7.  The explanation of a parsed text has one line for each number, from
    the largest unit to the smallest, which is the reverse of the order the
    numbers are written in: Solar Cycle, Cycle, Chord, Klik for four
    numbers; Solar Cycle, Cycle, Chord for three; Chord, Klik for two; Cycle
    for one. *)
Theorem explanation_of_parsed (almostEqual input : string) (d : date) :
  parseCybertronianDate input = Return (Some d) ->
  let solarCycleLine v :=
    "Solar Cycle: " ++ JS.toString v ++ " (Each solar cycle = 10 Earth years)" in
  let cycleLine v :=
    "Cycle: " ++ JS.toString v ++ " (Each cycle " ++ almostEqual ++ " 3.65 Earth days)" in
  let chordLine v :=
    "Chord: " ++ JS.toString v ++ " (1/10 of a cycle " ++ almostEqual ++ " 8.76 hours)" in
  let klikLine v :=
    "Klik: " ++ JS.toString v ++ " (1/1000 of a cycle " ++ almostEqual
    ++ " 5 Earth minutes)" in
  explainForm almostEqual input = explainDate almostEqual d
  /\ (forall a b c e, numbersOf input = [a; b; c; e] ->
      explainDate almostEqual d
      = String.concat newline [solarCycleLine e; cycleLine c; chordLine b; klikLine a])
  /\ (forall a b c, numbersOf input = [a; b; c] ->
      explainDate almostEqual d
      = String.concat newline [solarCycleLine c; cycleLine b; chordLine a])
  /\ (forall a b, numbersOf input = [a; b] ->
      explainDate almostEqual d = String.concat newline [chordLine b; klikLine a])
  /\ (forall a, numbersOf input = [a] -> explainDate almostEqual d = cycleLine a).
Proof.
  intros P. cbv zeta. split.
  { unfold explainForm, parsedDate. rewrite P. reflexivity. }
  apply parsed_numbers in P as [_ E].
  destruct (numbersOf input) as [|a [|b [|c [|e [|f l]]]]];
    cbn in E; try discriminate; injection E as <-;
    repeat match goal with |- _ /\ _ => split end;
    intros; try discriminate;
    match goal with E : _ = _ |- _ => injection E; intros; subst end;
    reflexivity.
Qed.

Lemma explanation_of_parsed_witness :
  explainForm "~" "5 arc 3"
  = explainDate "~" (mkDate (Some 5) (Some 3) None None)%float.
Proof.
  refine (proj1 (explanation_of_parsed "~" "5 arc 3" _ _)). vm_compute. reflexivity.
Defined.

Lemma parse_message (input message : string) :
  parseCybertronianDate input = Throw message -> message = "Invalid number in date".
Proof.
  rewrite parse_tokens. destruct (anyNaN input); [|discriminate].
  intros E. now injection E as <-.
Qed.

Lemma difference_swap (d1 d2 : date) :
  differenceBetweenDates d1 d2 = differenceBetweenDates d2 d1.
Proof.
  unfold differenceBetweenDates. cbv zeta. primitive.
  now rewrite (abs_sub_swap (cyberDateToEarthSeconds d2)).
Qed.

(** X8.  The compare form shows the same text whichever of the two dates is
    entered first.  A token that is not a number, in either text, gives
    "Error: Invalid number in date", also when the other text has too many
    numbers; without such a token, five or more numbers in either text give
    "Error: Invalid cybertronian date format.". *)
Theorem compare_form_symmetric (input1 input2 : string) :
  compareForm input1 input2 = compareForm input2 input1
  /\ (anyNaN input1 || anyNaN input2 = true ->
      compareForm input1 input2 = "Error: Invalid number in date")
  /\ (anyNaN input1 || anyNaN input2 = false ->
      (5 <= List.length (tokensOf input1))%nat
      \/ (5 <= List.length (tokensOf input2))%nat ->
      compareForm input1 input2 = "Error: Invalid cybertronian date format.").
Proof.
  unfold compareForm. rewrite !parse_tokens.
  destruct (anyNaN input1), (anyNaN input2); cbn [bind display orb];
    (split; [try reflexivity|split; [intros E; try discriminate E; reflexivity|]]);
    try (intros E; discriminate E).
  - destruct (assign (numbersOf input1)) as [d1|], (assign (numbersOf input2)) as [d2|];
      [|reflexivity|reflexivity|reflexivity].
    unfold compareDates. rewrite (difference_swap d1 d2). reflexivity.
  - intros _ [L|L]; rewrite (assign_too_many _ L);
      [|destruct (assign (numbersOf input1))]; reflexivity.
Qed.

Lemma compare_form_symmetric_witness :
  compareForm "1 2 3 4 5" "x" = "Error: Invalid number in date".
Proof. apply (compare_form_symmetric "1 2 3 4 5" "x"). reflexivity. Defined.

Lemma compare_at_zero :
  "Elapsed Cybertronian Time:" ++ newline
  ++ cyberElapsed (earthSecondsToCyberDate 0%float)
  ++ newline ++ newline ++ "Elapsed Earth Time:" ++ newline ++ humanElapsed 0%float
  = "Elapsed Cybertronian Time:" ++ newline
    ++ "Klik: 0, Chord: 0, Cycle: 0, Solar Cycle: 0"
    ++ newline ++ newline ++ "Elapsed Earth Time:" ++ newline
    ++ "0 years, 0 weeks, 0 days, 0 hours, 0 minutes, 0 seconds".
Proof. vm_compute. reflexivity. Qed.

(** X9.  Two texts that parse to dates of the same finite number of seconds
    compare as no time at all: every Cybertronian field and every Earth
    unit of the text shown is 0. *)
Theorem compare_equal_dates (input1 input2 : string) (d1 d2 : date) :
  parseCybertronianDate input1 = Return (Some d1) ->
  parseCybertronianDate input2 = Return (Some d2) ->
  cyberDateToEarthSeconds d1 = cyberDateToEarthSeconds d2 ->
  JS.isFinite (cyberDateToEarthSeconds d1) = true ->
  compareForm input1 input2
  = "Elapsed Cybertronian Time:" ++ newline
    ++ "Klik: 0, Chord: 0, Cycle: 0, Solar Cycle: 0"
    ++ newline ++ newline ++ "Elapsed Earth Time:" ++ newline
    ++ "0 years, 0 weeks, 0 days, 0 hours, 0 minutes, 0 seconds".
Proof.
  intros P1 P2 E F. unfold compareForm. rewrite P1, P2. cbn [bind display].
  unfold compareDates, differenceBetweenDates. cbv zeta.
  cbn [diffSeconds diffCyber]. primitive.
  rewrite <- E, (abs_sub_diag _ F). exact compare_at_zero.
Qed.

Lemma compare_equal_dates_witness :
  compareForm "5 arc 3" " 5 ARC 3 "
  = "Elapsed Cybertronian Time:" ++ newline
    ++ "Klik: 0, Chord: 0, Cycle: 0, Solar Cycle: 0"
    ++ newline ++ newline ++ "Elapsed Earth Time:" ++ newline
    ++ "0 years, 0 weeks, 0 days, 0 hours, 0 minutes, 0 seconds".
Proof.
  apply (compare_equal_dates "5 arc 3" " 5 ARC 3 "
           (mkDate (Some 5) (Some 3) None None)%float
           (mkDate (Some 5) (Some 3) None None)%float);
    vm_compute; reflexivity.
Defined.

(** * Rounding to binary64

    What the rounding of the operations keeps of an exact result
    [m * 2 ^ e]: its sign, that it is not zero above the smallest
    magnitude, and its order of magnitude. *)

Local Open Scope Z_scope.

Lemma fexp_eq (x : Z) : fexp prec emax x = Z.max (x - 53) (-1074).
Proof. reflexivity. Qed.

Lemma digits_size (p : positive) : digits2_pos p = Pos.size p.
Proof. induction p as [p IH|p IH|]; cbn; now rewrite ?IH. Qed.

Lemma digits_log2 (p : positive) : Zpos (digits2_pos p) = Z.log2 (Zpos p) + 1.
Proof.
  rewrite digits_size. destruct p as [p|p|]; cbn [Z.log2 Pos.size]; lia.
Qed.

Lemma digits_bounds (p : positive) :
  2 ^ (Zpos (digits2_pos p) - 1) <= Zpos p < 2 ^ Zpos (digits2_pos p).
Proof.
  rewrite digits_log2. replace (Z.log2 (Zpos p) + 1 - 1) with (Z.log2 (Zpos p)) by lia.
  apply Z.log2_spec. lia.
Qed.

Lemma digits_unique (m d : Z) :
  0 < d -> 2 ^ (d - 1) <= m < 2 ^ d -> Zdigits2 m = d.
Proof.
  intros D B. assert (0 < m) by (pose proof (Z.pow_pos_nonneg 2 (d - 1)); lia).
  destruct m as [|p|p]; try lia. cbn [Zdigits2]. rewrite digits_log2.
  rewrite (Z.log2_unique (Zpos p) (d - 1)); try lia.
  now replace (Z.succ (d - 1)) with d by lia.
Qed.

Lemma digits_positive (m : Z) : 0 < m -> 0 < Zdigits2 m /\ 2 ^ (Zdigits2 m - 1) <= m < 2 ^ Zdigits2 m.
Proof.
  destruct m as [|p|p]; try lia. intros _. cbn [Zdigits2]. split; [lia|apply digits_bounds].
Qed.

Lemma digits_monotone (m n : Z) : 0 < m -> m <= n -> Zdigits2 m <= Zdigits2 n.
Proof.
  intros M L. destruct m as [|p|p], n as [|q|q]; try lia. cbn [Zdigits2].
  rewrite !digits_log2. pose proof (Z.log2_le_mono (Zpos p) (Zpos q) L). lia.
Qed.

(** The digits of a quotient by a power of two. *)
Lemma digits_shift (m k : Z) :
  0 < m -> 0 <= k ->
  (k < Zdigits2 m -> 0 < m / 2 ^ k /\ Zdigits2 (m / 2 ^ k) = Zdigits2 m - k)
  /\ (Zdigits2 m <= k -> m / 2 ^ k = 0).
Proof.
  intros M K. destruct (digits_positive m M) as [D [L U]]. split; intros H.
  - assert (P : 0 < 2 ^ k) by (apply Z.pow_pos_nonneg; lia).
    assert (B : 2 ^ (Zdigits2 m - k - 1) <= m / 2 ^ k < 2 ^ (Zdigits2 m - k)).
    { split.
      - apply Z.div_le_lower_bound; [exact P|].
        rewrite <- Z.pow_add_r by lia.
        now replace (k + (Zdigits2 m - k - 1)) with (Zdigits2 m - 1) by lia.
      - apply Z.div_lt_upper_bound; [exact P|].
        rewrite <- Z.pow_add_r by lia.
        now replace (k + (Zdigits2 m - k)) with (Zdigits2 m) by lia. }
    split; [|apply digits_unique; [lia|exact B]].
    pose proof (Z.pow_pos_nonneg 2 (Zdigits2 m - k - 1)). lia.
  - apply Z.div_small. split; [lia|].
    apply Z.lt_le_trans with (1 := U). apply Z.pow_le_mono_r; lia.
Qed.

Lemma shr_1_m (r : shr_record) : 0 <= shr_m r -> shr_m (shr_1 r) = shr_m r / 2.
Proof.
  destruct r as [m r s]. cbn [shr_m shr_1]. intros M.
  destruct m as [|[p|p|]|]; try lia; cbn [shr_m].
  - reflexivity.
  - rewrite Pos2Z.inj_xI. apply Z.div_unique with (r := 1); lia.
  - rewrite Pos2Z.inj_xO. apply Z.div_unique with (r := 0); lia.
  - reflexivity.
Qed.

Lemma iter_shr_m (p : positive) :
  forall r : shr_record,
    0 <= shr_m r -> shr_m (iter_pos shr_1 p r) = shr_m r / 2 ^ Zpos p.
Proof.
  assert (P : forall q : positive, 0 < 2 ^ Zpos q) by (intros; apply Z.pow_pos_nonneg; lia).
  induction p as [p IH|p IH|]; intros r M; cbn [iter_pos].
  - assert (M1 : 0 <= shr_m (shr_1 r)).
    { rewrite shr_1_m by exact M. apply Z.div_pos; lia. }
    assert (M2 : 0 <= shr_m (iter_pos shr_1 p (shr_1 r))).
    { rewrite IH by exact M1. apply Z.div_pos; [exact M1|apply P]. }
    rewrite (IH _ M2), (IH _ M1), (shr_1_m _ M).
    rewrite !Z.div_div by (pose proof (P p); lia).
    f_equal. replace (Zpos p~1) with (1 + Zpos p + Zpos p) by lia.
    rewrite !Z.pow_add_r by lia. change (2 ^ 1) with 2. ring.
  - assert (M1 : 0 <= shr_m (iter_pos shr_1 p r)).
    { rewrite IH by exact M. apply Z.div_pos; [exact M|apply P]. }
    rewrite (IH _ M1), (IH _ M).
    rewrite Z.div_div by (pose proof (P p); lia).
    f_equal. replace (Zpos p~0) with (Zpos p + Zpos p) by lia.
    now rewrite Z.pow_add_r by lia.
  - rewrite shr_1_m by exact M. reflexivity.
Qed.

(** One truncation step: the mantissa is divided by [2 ^ k], the exponent
    raised by [k], for the [k] that brings the exponent up to [fexp]. *)
Lemma shr_fexp_spec (m e : Z) (l : location) :
  0 <= m ->
  let k := Z.max 0 (fexp prec emax (Zdigits2 m + e) - e) in
  shr_m (fst (shr_fexp prec emax m e l)) = m / 2 ^ k
  /\ snd (shr_fexp prec emax m e l) = e + k.
Proof.
  intros M k. unfold shr_fexp, shr. subst k.
  assert (R : shr_m (shr_record_of_loc m l) = m) by (destruct l as [|[| |]]; reflexivity).
  destruct (fexp prec emax (Zdigits2 m + e) - e) as [|p|p] eqn:N; cbn [fst snd].
  - rewrite R. cbn. split; [now rewrite Z.div_1_r|lia].
  - rewrite iter_shr_m by (rewrite R; exact M). rewrite R.
    replace (Z.max 0 (Zpos p)) with (Zpos p) by lia. split; reflexivity.
  - rewrite R. replace (Z.max 0 (Zneg p)) with 0 by lia.
    cbn. split; [now rewrite Z.div_1_r|lia].
Qed.

Lemma round_nearest_even_cases (m : Z) (l : location) :
  round_nearest_even m l = m \/ round_nearest_even m l = m + 1.
Proof. destruct l as [|[| |]]; cbn; try destruct (Z.even m); auto. Qed.

(** The rounding of [m * 2 ^ e], [m] positive: the sign is kept; the result
    is zero only at or below the smallest magnitude; a finite result is no
    smaller in magnitude, and it is a binary64 value when [e] is not above
    the exponent of the format. *)
Lemma round_aux_spec (s : bool) (m e : Z) (l : location) :
  0 < m ->
  match binary_round_aux prec emax s m e l with
  | S754_zero s' => s' = s /\ Zdigits2 m + e <= -1074
  | S754_infinity s' => s' = s
  | S754_finite s' m' e' =>
      s' = s /\ Zdigits2 m + e <= Zpos (digits2_pos m') + e'
      /\ (e <= fexp prec emax (Zdigits2 m + e) -> bounded prec emax m' e' = true)
  | S754_nan => False
  end.
Proof.
  intros M. unfold binary_round_aux.
  pose proof (shr_fexp_spec m e l (Z.lt_le_incl _ _ M)) as S1.
  destruct (shr_fexp prec emax m e l) as [r1 e1]. cbn [fst snd] in S1.
  destruct S1 as [M1 E1].
  pose proof (round_nearest_even_cases (shr_m r1) (loc_of_shr_record r1)) as R.
  set (m2 := round_nearest_even (shr_m r1) (loc_of_shr_record r1)) in *.
  destruct (digits_positive m M) as [Dpos _].
  rewrite fexp_eq in *.
  destruct (Z_lt_le_dec (-1074) (Zdigits2 m + e)) as [A|B].
  - (* above the smallest magnitude *)
    set (k1 := Z.max 0 (Z.max (Zdigits2 m + e - 53) (-1074) - e)) in *.
    assert (K1 : 0 <= k1 < Zdigits2 m) by lia.
    destruct (digits_shift m k1 M (proj1 K1)) as [[P1 D1] _]; [lia|].
    rewrite <- M1 in P1, D1.
    assert (P2 : 0 < m2) by lia.
    assert (D2 : Zdigits2 (shr_m r1) <= Zdigits2 m2) by (apply digits_monotone; lia).
    pose proof (shr_fexp_spec m2 e1 loc_Exact (Z.lt_le_incl _ _ P2)) as S3.
    destruct (shr_fexp prec emax m2 e1 loc_Exact) as [r3 e3]. cbn [fst snd] in S3.
    destruct S3 as [M3 E3]. rewrite fexp_eq in *.
    set (k2 := Z.max 0 (Z.max (Zdigits2 m2 + e1 - 53) (-1074) - e1)) in *.
    assert (K2 : 0 <= k2 < Zdigits2 m2) by lia.
    destruct (digits_shift m2 k2 P2 (proj1 K2)) as [[P3 D3] _]; [lia|].
    rewrite <- M3 in P3, D3.
    destruct (shr_m r3) as [|p|p]; try lia. cbn [Zdigits2] in D3.
    destruct (e3 <=? emax - prec) eqn:O; [|reflexivity].
    split; [reflexivity|]. split; [lia|].
    intros C. unfold bounded, canonical_mantissa. rewrite O, fexp_eq.
    rewrite andb_true_r. apply Z.eqb_eq. lia.
  - (* at or below it *)
    set (k1 := Z.max 0 (Z.max (Zdigits2 m + e - 53) (-1074) - e)) in *.
    assert (K1 : Zdigits2 m <= k1) by lia.
    destruct (digits_shift m k1 M) as [_ Z1]; [lia|].
    rewrite (Z1 K1) in M1. rewrite M1 in R.
    assert (E1' : e1 = -1074) by lia.
    pose proof (shr_fexp_spec m2 e1 loc_Exact) as S3.
    destruct (shr_fexp prec emax m2 e1 loc_Exact) as [r3 e3]. cbn [fst snd] in S3.
    rewrite fexp_eq in S3. clear E1. subst e1.
    destruct R as [R|R]; rewrite R in S3; destruct S3 as [M3 E3]; try lia;
      cbn in M3, E3; rewrite M3, ?E3.
    + split; [reflexivity|lia].
    + split; [reflexivity|]. split; [lia|]. intros _. reflexivity.
Qed.

Lemma iter_xO (m n : positive) :
  Zpos (Pos.iter xO m n) = Zpos m * 2 ^ Zpos n.
Proof.
  induction n as [|n IH] using Pos.peano_ind.
  - cbn [Pos.iter]. lia.
  - rewrite Pos.iter_succ, Pos2Z.inj_xO, IH, Pos2Z.inj_succ, Z.pow_succ_r by lia. ring.
Qed.

Lemma digits_scaled (m : positive) (n : Z) :
  0 <= n -> Zdigits2 (Zpos m * 2 ^ n) = Zpos (digits2_pos m) + n.
Proof.
  intros N. pose proof (digits_bounds m) as [L U]. apply digits_unique; [lia|].
  replace (Zpos (digits2_pos m) + n - 1) with (Zpos (digits2_pos m) - 1 + n) by lia.
  rewrite !Z.pow_add_r by lia.
  assert (0 < 2 ^ n) by (apply Z.pow_pos_nonneg; lia). nia.
Qed.

(** [shl_align] keeps the value and the magnitude, and leaves the exponent
    at or below the one asked for when that is below. *)
Lemma shl_align_spec (m : positive) (e e' : Z) :
  let '(mz, ez) := shl_align m e e' in
  Zpos (digits2_pos mz) + ez = Zpos (digits2_pos m) + e
  /\ ez = Z.min e e' /\ Zpos mz = Zpos m * 2 ^ (e - ez).
Proof.
  unfold shl_align. destruct (e' - e) as [|p|p] eqn:D.
  - replace (e - e) with 0 by lia. cbn. lia.
  - replace (e - e) with 0 by lia. cbn. lia.
  - pose proof (digits_scaled m (Zpos p)) as S. rewrite <- iter_xO in S.
    cbn [Zdigits2] in S. rewrite iter_xO.
    replace (e - e') with (Zpos p) by lia. lia.
Qed.

(** The rounding of [m * 2 ^ e] by [binary_round]: as [round_aux_spec], and
    a finite result is always a binary64 value. *)
Lemma round_spec (s : bool) (m : positive) (e : Z) :
  match binary_round prec emax s m e with
  | S754_zero s' => s' = s /\ Zpos (digits2_pos m) + e <= -1074
  | S754_infinity s' => s' = s
  | S754_finite s' m' e' =>
      s' = s /\ Zpos (digits2_pos m) + e <= Zpos (digits2_pos m') + e'
      /\ bounded prec emax m' e' = true
  | S754_nan => False
  end.
Proof.
  unfold binary_round.
  pose proof (shl_align_spec m e (fexp prec emax (Zpos (digits2_pos m) + e))) as A.
  destruct (shl_align m e _) as [mz ez]. destruct A as (D & E & _).
  pose proof (round_aux_spec s (Zpos mz) ez loc_Exact eq_refl) as R.
  cbn [Zdigits2] in R. rewrite D in R.
  destruct (binary_round_aux prec emax s (Zpos mz) ez loc_Exact); try exact R.
  destruct R as (S & M & B). repeat split; try assumption. apply B. lia.
Qed.

(** A value built by rounding is the binary64 value it names. *)
Lemma Prim2SF_round_aux (s : bool) (m e : Z) (l : location) :
  0 < m -> e <= fexp prec emax (Zdigits2 m + e) ->
  Prim2SF (SF2Prim (binary_round_aux prec emax s m e l))
  = binary_round_aux prec emax s m e l.
Proof.
  intros M C. apply Prim2SF_SF2Prim.
  pose proof (round_aux_spec s m e l M) as R.
  destruct (binary_round_aux prec emax s m e l); try reflexivity.
  apply R, C.
Qed.

(** The quotient of a positive integer by 1, before it is rounded. *)
Lemma div_core_one (p : positive) :
  exists (mz ez : Z) (lz : location),
    SFdiv_core_binary prec emax (Zpos p) 0 1 0 = (mz, ez, lz)
    /\ 0 < mz /\ Zdigits2 mz + ez = Zpos (digits2_pos p)
    /\ ez <= fexp prec emax (Zdigits2 mz + ez).
Proof.
  unfold SFdiv_core_binary. cbn [Zdigits2 digits2_pos].
  rewrite fexp_eq.
  set (e' := Z.min (Z.max (Zpos (digits2_pos p) + 0 - (1 + 0) - 53) (-1074)) (0 - 0)).
  assert (E : e' <= 0) by lia.
  assert (S : exists m', 0 < m' /\ Zdigits2 m' = Zpos (digits2_pos p) - e'
                         /\ match 0 - 0 - e' with
                            | 0 => Zpos p
                            | Zpos _ => Z.shiftl (Zpos p) (0 - 0 - e')
                            | Zneg _ => 0
                            end = m').
  { destruct (0 - 0 - e') as [|q|q] eqn:D; try lia.
    - exists (Zpos p). cbn [Zdigits2]. repeat split; lia.
    - exists (Zpos p * 2 ^ Zpos q). rewrite Z.shiftl_mul_pow2 by lia.
      rewrite digits_scaled by lia.
      assert (0 < 2 ^ Zpos q) by (apply Z.pow_pos_nonneg; lia).
      repeat split; try lia; nia. }
  destruct S as (m' & P & D & ->).
  pose proof (Z.div_1_r m') as Q. unfold Z.div in Q.
  destruct (Z.div_eucl m' 1) as [q r]. cbn [fst] in Q. subst q.
  eexists _, _, _. split; [reflexivity|]. rewrite fexp_eq. repeat split; lia.
Qed.

(** The Number for a non-negative integer is +0 for 0 and at least 1
    otherwise. *)
Lemma ofZ_zeroOrMore (m : Z) :
  0 <= m ->
  zeroOrMore (Prim2SF (JS.ofZ m))
  /\ (Prim2SF (JS.ofZ m) = S754_zero false <-> m = 0).
Proof.
  intros M. destruct m as [|p|p]; try lia.
  - split; [left; reflexivity|]. split; reflexivity.
  - unfold JS.ofZ, JS.ofQ. cbn [inject_Z Qnum Qden JS.SFofQ SFdiv].
    destruct (div_core_one p) as (mz & ez & lz & -> & P & D & C).
    rewrite (Prim2SF_round_aux _ _ _ _ P C). cbn [xorb].
    pose proof (round_aux_spec false mz ez lz P) as R.
    destruct (binary_round_aux prec emax false mz ez lz) as [s|s| |s m' e'].
    + lia.
    + subst s. split; [right; exact I|]. split; [discriminate|lia].
    + contradiction.
    + destruct R as (-> & G & _). split; [right; cbn [oneOrMore]; lia|]. split; [discriminate|lia].
Qed.

Lemma digits_product (p q : positive) :
  Zpos (digits2_pos p) + Zpos (digits2_pos q) - 1 <= Zpos (digits2_pos (p * q)).
Proof.
  pose proof (digits_bounds p) as [Lp _]. pose proof (digits_bounds q) as [Lq _].
  pose proof (digits_bounds (p * q)) as [_ U].
  assert (L : 2 ^ (Zpos (digits2_pos p) - 1 + (Zpos (digits2_pos q) - 1)) <= Zpos (p * q)).
  { rewrite Z.pow_add_r by lia. rewrite Pos2Z.inj_mul.
    apply Z.mul_le_mono_nonneg; try assumption; apply Z.pow_nonneg; lia. }
  assert (T : Zpos (digits2_pos p) - 1 + (Zpos (digits2_pos q) - 1)
              < Zpos (digits2_pos (p * q))); [|lia].
  apply (Z.pow_lt_mono_r_iff 2); lia.
Qed.

(** A product with a finite factor that is at least 1. *)
Lemma mul_zeroOrMore (x y : spec_float) :
  zeroOrMore x -> oneOrMore y -> y <> S754_infinity false ->
  zeroOrMore (SF64mul x y) /\ (SF64mul x y = S754_zero false <-> x = S754_zero false).
Proof.
  intros [-> | X] Y F.
  - destruct y as [sy|[]| |[] my ey]; try contradiction; try congruence.
    split; [left; reflexivity|]. split; reflexivity.
  - destruct x as [sx|[]| |[] mx ex]; try contradiction;
      destruct y as [sy|[]| |[] my ey]; try contradiction; try congruence.
    + split; [right; exact I|]. split; discriminate.
    + cbn [oneOrMore] in X, Y. unfold SF64mul, SFmul. cbn [xorb].
      pose proof (round_aux_spec false (Zpos (mx * my)) (ex + ey) loc_Exact eq_refl) as R.
      pose proof (digits_product mx my). cbn [Zdigits2] in R.
      destruct (binary_round_aux prec emax false (Zpos (mx * my)) (ex + ey) loc_Exact)
        as [s|s| |s m' e'].
      * lia.
      * subst s. split; [right; exact I|]. split; discriminate.
      * contradiction.
      * destruct R as (-> & G & _). split; [right; cbn [oneOrMore]; lia|]. split; discriminate.
Qed.

(** A sum of two values that are +0 or at least 1. *)
Lemma add_zeroOrMore (x y : spec_float) :
  zeroOrMore x -> zeroOrMore y ->
  zeroOrMore (SF64add x y)
  /\ (SF64add x y = S754_zero false <-> x = S754_zero false /\ y = S754_zero false).
Proof.
  intros [-> | X] [-> | Y].
  - split; [left; reflexivity|]. split; [now split|reflexivity].
  - destruct y as [sy|[]| |[] my ey]; try contradiction;
      (split; [right; exact Y|split; [discriminate|intros [_ E]; discriminate E]]).
  - destruct x as [sx|[]| |[] mx ex]; try contradiction;
      (split; [right; exact X|split; [discriminate|intros [E _]; discriminate E]]).
  - destruct x as [sx|[]| |[] mx ex]; try contradiction;
      destruct y as [sy|[]| |[] my ey]; try contradiction;
      try (split; [right; exact I|split; [discriminate|intros [E _]; discriminate E]]).
    cbn [oneOrMore] in X, Y. unfold SF64add, SFadd. cbn [cond_Zopp].
    pose proof (shl_align_spec mx ex (Z.min ex ey)) as A.
    pose proof (shl_align_spec my ey (Z.min ex ey)) as B.
    destruct (shl_align mx ex _) as [ax a], (shl_align my ey _) as [bx b].
    cbn [fst]. cbn [Z.add binary_normalize].
    pose proof (round_spec false (ax + bx) (Z.min ex ey)) as R.
    assert (D : Zpos (digits2_pos ax) <= Zpos (digits2_pos (ax + bx))).
    { apply (digits_monotone (Zpos ax) (Zpos (ax + bx))); lia. }
    destruct (binary_round prec emax false (ax + bx) (Z.min ex ey)) as [s|s| |s m' e'].
    + lia.
    + subst s. split; [right; exact I|]. split; [discriminate|intros [E _]; discriminate E].
    + contradiction.
    + destruct R as (-> & G & _). split; [right; cbn [oneOrMore]; lia|].
      split; [discriminate|intros [E _]; discriminate E].
Qed.

(** * Durations are zero or at least one second *)

Lemma digit_value (c : ascii) :
  JS.isDigit c = true ->
  JS.hexDigitOf c = Some (JS.digitOf c)
  /\ 0 <= JS.digitOf c < 10
  /\ (JS.digitOf c = 0 <-> Ascii.eqb "0" c = true).
Proof.
  destruct c as [[] [] [] [] [] [] [] []]; intros D; vm_compute in D;
    try discriminate D; clear D;
    (split; [reflexivity|]); (split; [split; vm_compute; [intros E; discriminate E|reflexivity]|]);
    vm_compute; split; intros E; try discriminate E; reflexivity.
Qed.

Lemma digits_value (s : string) :
  forall acc : Z,
    every JS.isDigit s = true -> 0 <= acc ->
    exists m : Z,
      JS.digitsIn 10 acc s = Some m /\ acc <= m
      /\ (m = 0 <-> acc = 0 /\ zeroAmount s = true).
Proof.
  induction s as [|c s IH]; intros acc E A.
  - exists acc. cbn. repeat split; try lia; try tauto.
  - cbn [every] in E. apply andb_prop in E as [C E].
    destruct (digit_value c C) as (H & R & Z0).
    cbn [JS.digitsIn]. rewrite H.
    replace (JS.digitOf c <? 10) with true by (symmetry; apply Z.ltb_lt; lia).
    destruct (IH (10 * acc + JS.digitOf c) E) as (m & -> & L & Z1); [lia|].
    exists m. split; [reflexivity|]. split; [lia|].
    unfold zeroAmount in *. cbn [every]. rewrite andb_true_iff, Z1, <- Z0. intuition lia.
Qed.

Lemma parseInt_zeroOrMore (digits : string) :
  every JS.isDigit digits = true -> digits <> "" ->
  zeroOrMore (Prim2SF (JS.parseIntDigits digits))
  /\ (Prim2SF (JS.parseIntDigits digits) = S754_zero false <-> zeroAmount digits = true).
Proof.
  intros E N. unfold JS.parseIntDigits, JS.integerIn.
  destruct (digits_value digits 0 E) as (m & D & L & Z0); [lia|].
  destruct digits as [|c s]; [congruence|]. rewrite D.
  destruct (ofZ_zeroOrMore m L) as [P Q]. split; [exact P|].
  rewrite Q, Z0. tauto.
Qed.

Lemma take_prefix (p : ascii -> bool) (s : string) :
  every p (JS.take (String.length s - String.length (dropWhile p s)) s) = true.
Proof.
  induction s as [|c s IH]; [reflexivity|]. cbn [dropWhile].
  destruct (p c) eqn:C.
  - pose proof (dropWhile_length p s).
    replace (String.length (String c s) - String.length (dropWhile p s))%nat
      with (S (String.length s - String.length (dropWhile p s)))
      by (cbn [String.length]; lia).
    cbn [JS.take every]. now rewrite C, IH.
  - now rewrite Nat.sub_diag.
Qed.

Lemma take_prefix_head (p : ascii -> bool) (c : ascii) (s : string) :
  p c = true ->
  JS.take (String.length (String c s) - String.length (dropWhile p (String c s)))
          (String c s) <> "".
Proof.
  intros C. cbn [dropWhile]. rewrite C. pose proof (dropWhile_length p s).
  replace (String.length (String c s) - String.length (dropWhile p s))%nat
    with (S (String.length s - String.length (dropWhile p s)))
    by (cbn [String.length]; lia).
  discriminate.
Qed.

Lemma durationAt_digits (s digits : string) (u : timeUnit) (n : nat) :
  durationAt s = Some (digits, u, n) ->
  every JS.isDigit digits = true /\ digits <> "".
Proof.
  destruct s as [|c s]; [discriminate|].
  pose proof (take_prefix JS.isDigit (String c s)) as T.
  pose proof (take_prefix_head JS.isDigit c s) as H.
  unfold durationAt.
  destruct (JS.isDigit c) eqn:C; [|discriminate].
  destruct (unitAt _) as [[u' rest]|]; [|discriminate].
  intros E. injection E as <- _ _. split; [exact T|exact (H eq_refl)].
Qed.

Lemma durations_digits (s : string) :
  forall skip : nat,
    Forall (fun '(digits, _) => every JS.isDigit digits = true /\ digits <> "")
           (durationsFrom s skip).
Proof.
  induction s as [|c s IH]; intros skip; [constructor|].
  cbn [durationsFrom]. destruct skip; [|apply IH].
  destruct (durationAt (String c s)) as [[[digits u] n]|] eqn:D; [|apply IH].
  destruct n; [apply IH|]. constructor; [|apply IH].
  exact (durationAt_digits _ _ _ _ D).
Qed.

Lemma unit_oneOrMore (u : timeUnit) :
  oneOrMore (Prim2SF (unitSeconds u))
  /\ Prim2SF (unitSeconds u) <> S754_infinity false.
Proof. destruct u; split; vm_compute; intros E; discriminate E. Qed.

(** The running total of the loop is +0 while every amount is zero, and at
    least 1 from the first amount that is not. *)
Lemma total_zeroOrMore (ds : list (string * timeUnit)) :
  forall total : float,
    Forall (fun '(digits, _) => every JS.isDigit digits = true /\ digits <> "") ds ->
    zeroOrMore (Prim2SF total) ->
    let r := fold_left (fun total '(digits, u) =>
                          (total + JS.parseIntDigits digits * unitSeconds u)%float)
                       ds total in
    zeroOrMore (Prim2SF r)
    /\ (Prim2SF r = S754_zero false
        <-> Prim2SF total = S754_zero false
            /\ forallb (fun '(digits, _) => zeroAmount digits) ds = true).
Proof.
  induction ds as [|[digits u] ds IH]; intros total F T.
  - cbn. split; [exact T|]. tauto.
  - inversion F as [|? ? H F']; subst. cbv beta iota in H. destruct H as [E N].
    cbn [fold_left forallb].
    destruct (parseInt_zeroOrMore digits E N) as [V VZ].
    destruct (unit_oneOrMore u) as [U UF].
    destruct (mul_zeroOrMore _ _ V U UF) as [P PZ].
    destruct (add_zeroOrMore _ _ T P) as [S SZ].
    rewrite <- mul_spec in S, SZ, PZ. rewrite <- add_spec in S, SZ.
    pose proof (IH _ F' S) as I. cbv zeta in I. destruct I as [R RZ].
    split; [exact R|]. rewrite RZ, SZ, PZ, VZ, andb_true_iff. tauto.
Qed.

Lemma zero_and_one :
  Prim2SF 0 = S754_zero false /\ Prim2SF 1 = S754_finite false 4503599627370496 (-52).
Proof. split; vm_compute; reflexivity. Qed.

Lemma oneOrMore_compare (x : float) :
  oneOrMore (Prim2SF x) ->
  (1 <=? x)%float = true /\ (x <=? 0)%float = false /\ JS.isNaN x = false.
Proof.
  intros P. rewrite !leb_spec.
  assert (N : JS.isNaN x = false).
  { unfold JS.isNaN. destruct (is_nan x) eqn:E; [|reflexivity].
    unfold Prim2SF in P. rewrite E in P. contradiction. }
  pose proof (Prim2SF_valid x) as V.
  destruct zero_and_one as [-> ->].
  destruct (Prim2SF x) as [s|[]| |[] m e]; try contradiction;
    (split; [|split; [reflexivity|exact N]]); [reflexivity|].
  cbn [oneOrMore valid_binary] in P, V. unfold bounded, canonical_mantissa in V.
  apply andb_prop in V as [V _]. apply Z.eqb_eq in V. rewrite fexp_eq in V.
  unfold SFleb, SFcompare.
  destruct (Z.compare_spec (-52) e) as [<- | L | G]; [|reflexivity|lia].
  assert (D : Zpos (digits2_pos m) = 53) by lia.
  pose proof (digits_bounds m) as [L _]. rewrite D in L.
  assert (T : 2 ^ (53 - 1) = 4503599627370496) by (vm_compute; reflexivity).
  rewrite T in L. clear T.
  fold (Pos.compare 4503599627370496 m).
  destruct (Pos.compare_spec 4503599627370496 m) as [C|C|C]; try reflexivity.
  exfalso. apply Pos2Z.pos_lt_pos in C. apply (Z.lt_irrefl (Zpos m)).
  apply Z.lt_le_trans with (1 := C). exact L.
Qed.

(** X10.  The duration of a text is never NaN and never negative: it is +0
    when every amount in the text is written with zeros only (and when the
    text has no duration), and at least 1 otherwise.  So the test
    [<= 0] of the add and subtract forms rejects exactly the texts whose
    amounts are all zero. *)
Theorem duration_zero_or_at_least_one (text : string) :
  let p := parseHumanTime text in
  let allZero := forallb (fun '(digits, _) => zeroAmount digits) (durations text) in
  JS.isNaN p = false
  /\ (p <=? 0)%float = allZero
  /\ (allZero = true -> p = 0%float)
  /\ (allZero = false -> (1 <=? p)%float = true).
Proof.
  intros p allZero.
  assert (E : p = fold_left (fun total '(digits, u) =>
                               (total + JS.parseIntDigits digits * unitSeconds u)%float)
                            (durations text) 0%float)
    by apply execAll_durations.
  pose proof (total_zeroOrMore (durations text) 0%float (durations_digits text 0%nat)
                (or_introl (proj1 zero_and_one))) as T.
  cbv zeta in T. rewrite <- E in T. fold allZero in T. destruct T as [[Z0 | P] TZ].
  - assert (A : allZero = true) by (apply TZ; exact Z0).
    assert (P : p = 0%float)
      by (apply Prim2SF_inj; rewrite Z0; symmetry; apply zero_and_one).
    rewrite A, P. split; [reflexivity|]. split; [reflexivity|].
    split; [reflexivity|discriminate].
  - destruct (oneOrMore_compare p P) as (G & L & N).
    assert (A : allZero = false).
    { destruct allZero; [|reflexivity].
      assert (Z0 : Prim2SF p = S754_zero false) by (apply TZ; now split).
      rewrite Z0 in P. contradiction. }
    rewrite A, L. split; [exact N|]. split; [reflexivity|].
    split; [discriminate|intros _; exact G].
Qed.

Lemma duration_zero_or_at_least_one_witness :
  parseHumanTime "0 days, 00 hours" = 0%float
  /\ (1 <=? parseHumanTime "0 days, 1 second")%float = true.
Proof.
  split.
  - refine (proj1 (proj2 (proj2 (duration_zero_or_at_least_one "0 days, 00 hours"))) _).
    vm_compute. reflexivity.
  - refine (proj2 (proj2 (proj2 (duration_zero_or_at_least_one "0 days, 1 second"))) _).
    vm_compute. reflexivity.
Defined.

(** * A null field counts as zero *)

Lemma valid_exponent (x : float) (s : bool) (m : positive) (e : Z) :
  Prim2SF x = S754_finite s m e -> -1074 <= e.
Proof.
  intros E. pose proof (Prim2SF_valid x) as V. rewrite E in V.
  cbn [valid_binary] in V. unfold bounded, canonical_mantissa in V.
  apply andb_prop in V as [V _]. apply Z.eqb_eq in V. rewrite fexp_eq in V. lia.
Qed.

Lemma normalize_not_zero (z e : Z) (s : bool) :
  -1074 <= e -> binary_normalize prec emax z e false <> S754_zero true.
Proof.
  intros E. destruct z as [|q|q]; cbn [binary_normalize]; [discriminate| |].
  - pose proof (round_spec false q e) as R.
    destruct (binary_round prec emax false q e); try discriminate.
    destruct R as [_ R]. pose proof (Pos2Z.is_pos (digits2_pos q)). lia.
  - pose proof (round_spec true q e) as R.
    destruct (binary_round prec emax true q e); try discriminate.
    destruct R as [_ R]. pose proof (Pos2Z.is_pos (digits2_pos q)). lia.
Qed.

(** A sum is -0 only when both terms are. *)
Lemma add_not_negative_zero (x y : float) :
  Prim2SF x <> S754_zero true -> Prim2SF (x + y)%float <> S754_zero true.
Proof.
  intros X. rewrite add_spec.
  pose proof (valid_exponent x) as VX. pose proof (valid_exponent y) as VY.
  destruct (Prim2SF x) as [sx|sx| |sx mx ex], (Prim2SF y) as [sy|sy| |sy my ey];
    cbn [SF64add SFadd]; try discriminate; try exact X;
    try (destruct sx, sy; try discriminate; congruence).
  apply normalize_not_zero; [exact false|].
  specialize (VX _ _ _ eq_refl). specialize (VY _ _ _ eq_refl). lia.
Qed.

Lemma add_zero_r (x : float) :
  Prim2SF x <> S754_zero true -> (x + 0)%float = x.
Proof.
  intros X. apply Prim2SF_inj. rewrite add_spec.
  destruct zero_and_one as [-> _].
  destruct (Prim2SF x) as [[]|sx| |sx mx ex]; try reflexivity. congruence.
Qed.

Lemma addField_orZero (t : float) (field : option float) (unit : float) :
  Prim2SF t <> S754_zero true -> (0 * unit)%float = 0%float ->
  addField t (orZero field) unit = addField t field unit
  /\ Prim2SF (addField t field unit) <> S754_zero true.
Proof.
  intros T U. destruct field as [v|]; cbn [orZero addField]; primitive.
  - split; [reflexivity|now apply add_not_negative_zero].
  - split; [|exact T]. rewrite U. now apply add_zero_r.
Qed.

(** X11.  A null field counts as a field of 0 in the conversion to seconds:
    a date and the date with 0 in the place of its null fields have the
    same seconds.  (They are not formatted alike.) *)
Theorem null_fields_count_as_zero (d : date) :
  cyberDateToEarthSeconds (zeroed d) = cyberDateToEarthSeconds d.
Proof.
  unfold cyberDateToEarthSeconds, zeroed. cbv zeta. cbn [klik chord cycle solarCycle].
  destruct literals as [-> _].
  assert (T0 : Prim2SF 0%float <> S754_zero true)
    by (destruct zero_and_one as [-> _]; discriminate).
  destruct (addField_orZero 0%float (solarCycle d) SOLAR_CYCLE_DAYS T0) as [-> T1];
    [vm_compute; reflexivity|].
  destruct (addField_orZero _ (cycle d) CYCLE T1) as [-> T2]; [vm_compute; reflexivity|].
  destruct (addField_orZero _ (chord d) (CYCLE / lit 10)%num T2) as [-> T3];
    [vm_compute; reflexivity|].
  destruct (addField_orZero _ (klik d) (CYCLE / lit 1000)%num T3) as [-> _];
    [vm_compute; reflexivity|].
  reflexivity.
Qed.
